(** * react-frontload: the queue registry, the push protocol, the flush
      engine and the server render coordinator of [src/index.js]

    A shallow embedding of [src/index.js] and the properties of its four
    parts.

    - The module variable [FRONTLOAD_QUEUES] is a field of an explicit
      [World], next to what surrounds the module: the store the fetch
      functions write to, a clock, the fetches in flight and a trace of the
      renderer calls, frontload calls and log lines.
    - Arrays follow JavaScript: reading past the end or reading a hole
      yields [undefined], writing past the end extends the array and
      leaves holes; code that reads a property of [undefined] throws.
    - A promise is described by the time and the outcome of its settlement
      (or by the fact that it never settles); [catch] and [Promise.all]
      are defined on that description.  The delay of the microtask queue
      is left out, and values are not thenables.
    - A frontload function is opaque: a call yields a promise and, by the
      time the promise settles, an effect on the store.  It does not touch
      the registry.
    - The render function is opaque: given the dry-run flag and the store
      it yields an output and the providers and connected components it
      mounts, in order.  A render to markup runs [componentWillMount] and
      no later hook.
    - The worker of the coordinator recurses through a promise callback;
      its embedding takes one unit of fuel per render pass. *)

From stdpp Require Import base option list strings.
From Stdlib Require Import ZArith Lia Sorted.

Set Default Proof Using "Type".

(** ** JavaScript truthiness of optional boolean and string fields *)

(** A field that may be absent ([undefined]) holds [None]. *)
Definition truthy (b : option bool) : bool :=
  match b with
  | Some true => true
  | _ => false
  end.

(** [x === false] *)
Definition is_false (b : option bool) : bool :=
  match b with
  | Some false => true
  | _ => false
  end.

(** [x === undefined] *)
Definition is_undefined {A} (x : option A) : bool :=
  match x with
  | None => true
  | Some _ => false
  end.

(** A string is truthy when it is present and not empty. *)
Definition truthy_str (s : option string) : bool :=
  match s with
  | None => false
  | Some EmptyString => false
  | Some (String _ _) => true
  end.

(** ** JavaScript arrays *)

Module JsArray.

(** An array slot that was never written is a hole ([None]); reading a
    hole or reading past the end both yield [undefined]. *)
Definition get {A} (arr : list (option A)) (i : nat) : option A :=
  match arr !! i with
  | Some (Some x) => Some x
  | _ => None
  end.

(** [arr[i] = x]: overwrites in range, extends with holes out of range. *)
Fixpoint set {A} (i : nat) (x : A) (arr : list (option A)) : list (option A) :=
  match i, arr with
  | 0, [] => [Some x]
  | 0, _ :: rest => Some x :: rest
  | S i', [] => None :: set i' x []
  | S i', slot :: rest => slot :: set i' x rest
  end.

(** [arr.push(x)]: appends and returns the new length. *)
Definition push {A} (x : A) (arr : list (option A)) : list (option A) * nat :=
  (arr ++ [Some x], S (length arr)).

End JsArray.

(** ** The hosting environment

    What the module takes from its surroundings: the types of the values
    that flow through it, [process.env.NODE_ENV] and the result of
    [autoDetectIsServer ()]. *)

Class Host := {
  (** values promises are fulfilled or rejected with *)
  Val : Type;
  (** external state the fetch functions write and the renderer reads *)
  Store : Type;
  (** what the render function returns *)
  Output : Type;
  (** props of a connected component *)
  Props : Type;
  (** [childProps.displayName] *)
  displayName : Props → option string;
  (** [process.env.NODE_ENV === 'production'] *)
  production : bool;
  (** [const IS_SERVER = autoDetectIsServer()] *)
  IS_SERVER : bool;
}.

(** ** Promises

    A promise is described by when and how it settles.  Times are absolute
    ticks of the model clock; [None] is a promise that never settles. *)

Section Promises.

Context `{Host}.

Inductive settlement (A : Type) : Type :=
| Fulfilled (a : A)
| Rejected (reason : Val).
#[global] Arguments Fulfilled {A} a.
#[global] Arguments Rejected {A} reason.

Definition promise (A : Type) : Type := option (nat * settlement A).

(** [promise.catch(error => error)]: a rejection becomes a fulfilment
    with the reason as value; the settle time is kept. *)
Definition catch_identity (p : promise Val) : promise Val :=
  match p with
  | None => None
  | Some (t, Fulfilled v) => Some (t, Fulfilled v)
  | Some (t, Rejected e) => Some (t, Fulfilled e)
  end.

(** The earliest rejection among [ps]; on a tie the first in the list. *)
Fixpoint first_rejection {A} (ps : list (promise A)) : option (nat * Val) :=
  match ps with
  | [] => None
  | p :: rest =>
      match p, first_rejection rest with
      | Some (t, Rejected e), Some (t', e') =>
          if decide (t ≤ t') then Some (t, e) else Some (t', e')
      | Some (t, Rejected e), None => Some (t, e)
      | _, r => r
      end
  end.

(** When every promise of [ps] fulfils: the time of the last fulfilment
    (not before [now]) and the values in order. *)
Fixpoint all_fulfilled {A} (now : nat) (ps : list (promise A)) : option (nat * list A) :=
  match ps with
  | [] => Some (now, [])
  | Some (t, Fulfilled v) :: rest =>
      match all_fulfilled now rest with
      | Some (t', vs) => Some (t `max` t', v :: vs)
      | None => None
      end
  | _ => None
  end.

(** [Promise.all(ps)] called at time [now]: rejects with the first
    rejection, fulfils once all inputs have fulfilled, and stays pending
    otherwise. *)
Definition Promise_all {A} (now : nat) (ps : list (promise A)) : promise (list A) :=
  match first_rejection ps with
  | Some (t, e) => Some (t, Rejected e)
  | None =>
      match all_fulfilled now ps with
      | Some (t, vs) => Some (t, Fulfilled vs)
      | None => None
      end
  end.

(** [waitForAllToComplete(promises)]: like [Promise.all], but every
    promise first goes through [catch].  The helper [map] of the source is
    [List.map]; this caller does not use the index it passes. *)
Definition waitForAllToComplete (now : nat) (promises : list (promise Val)) : promise (list Val) :=
  Promise_all now (map catch_identity promises).

End Promises.

(** ** Data model *)

Section Model.

Context `{Host}.

(** [const LIFECYCLE_PHASES = { MOUNT: 0, UPDATE: 1 }] *)
Inductive LifecyclePhase : Type := MOUNT | UPDATE.

Definition phase_eqb (a b : LifecyclePhase) : bool :=
  match a, b with
  | MOUNT, MOUNT | UPDATE, UPDATE => true
  | _, _ => false
  end.

(** The second argument of a frontload function, [{ isMount, isUpdate }]. *)
Record PhaseInfo : Type := {
  isMount : bool;
  isUpdate : bool;
}.

(** What one call of a frontload function amounts to: the promise it
    returns ([Some (d, o)]: settles [d] ticks after the call with outcome
    [o]; [None]: never settles) and what it has written to the store by the
    time that promise settles. *)
Record Fetch : Type := {
  f_settles : option (nat * settlement Val);
  f_effect : Store → Store;
}.

(** [frontload(childProps, { isMount, isUpdate })] *)
Definition FrontloadFn : Type := Props → PhaseInfo → Fetch.

(** The options given to [frontloadConnect]; every field may be absent. *)
Record NodeOptions : Type := {
  onMount : option bool;
  onUpdate : option bool;
  noServerRender : option bool;
}.

(** An entry of a queue: [{ fn, options, componentDisplayName }]. *)
Record Request : Type := {
  fn : unit → Fetch;
  options : NodeOptions;
  componentDisplayName : option string;
}.

(** The props of the [Frontload] provider. *)
Record FrontloadProps : Type := {
  props_isServer : option bool;
  props_noServerRender : option bool;
  props_withLogging : option bool;
  props_name : option string;
}.

(** A [Frontload] instance.  [firstClientRenderDone] is never assigned by
    the constructor; the absent field reads as falsy. *)
Record Frontload : Type := {
  props : FrontloadProps;
  isServer : bool;
  queueIndex : nat;
  firstClientRenderDone : bool;
}.

(** The second argument of [flushQueues]. *)
Record FlushOptions : Type := {
  firstClientRender : option bool;
  flush_noServerRender : option bool;
  (** whether [options.log] is supplied *)
  flush_log : bool;
}.

(** [options = {}] *)
Definition no_flush_options : FlushOptions :=
  {| firstClientRender := None; flush_noServerRender := None; flush_log := false |}.

(** The second argument of [frontloadServerRender]. *)
Record ServerRenderOptions : Type := {
  withLogging : option bool;
  maxNestedFrontloadComponents : option Z;
}.

(** The messages handed to [log] and to [options.log], by call site. *)
Inductive LogMsg : Type :=
| LogAddedToQueue (name : option string) (logMessage : option string)
| LogExecuted (name : option string) (logMessage : option string)
| LogNotExecutedOnFirstClientRender (name : option string) (logMessage : option string)
| LogFirstClientRenderDone (name : option string)
| LogFlushNote (component : option string) (globally : bool)
| LogRunningPass (renderNumber : Z)
| LogTotalCount (renderNumber : Z) (count : nat)
| LogNoFrontloadsRemain (renderNumber : Z) (max : option Z)
| LogFinalNote
| LogFinalSucceeded
| LogToRun (new : Z) (renderNumber : Z)
| LogRan (renderNumber : Z) (new : Z) (elapsed : nat)
| LogWarningMaxReached (max : option Z) (left : Z)
| LogNoteExtraPass (max : option Z).

(** What can be observed of a run, in order. *)
Inductive Event : Type :=
| EvRender (dryRun : bool)
| EvFrontload (f : Fetch)
| EvLog (m : LogMsg).

(** The state of the module and of its surroundings.  [inflight] holds the
    fetches whose promise has not been waited for yet, each with the
    promise its call returned. *)
Record World : Type := {
  FRONTLOAD_QUEUES : list (option (list Request));
  store : Store;
  clock : nat;
  inflight : list (promise Val * Fetch);
  trace : list Event;
}.

Definition set_queues (q : list (option (list Request))) (w : World) : World :=
  {| FRONTLOAD_QUEUES := q; store := store w; clock := clock w;
     inflight := inflight w; trace := trace w |}.

Definition set_store (s : Store) (w : World) : World :=
  {| FRONTLOAD_QUEUES := FRONTLOAD_QUEUES w; store := s; clock := clock w;
     inflight := inflight w; trace := trace w |}.

Definition emit (e : Event) (w : World) : World :=
  {| FRONTLOAD_QUEUES := FRONTLOAD_QUEUES w; store := store w; clock := clock w;
     inflight := inflight w; trace := trace w ++ [e] |}.

(** [cond && log(...)] *)
Definition log_if (cond : bool) (m : LogMsg) (w : World) : World :=
  if cond then emit (EvLog m) w else w.

(** The promise a fetch called at time [now] returns. *)
Definition returned_promise (now : nat) (f : Fetch) : promise Val :=
  match f_settles f with
  | Some (d, o) => Some (now + d, o)
  | None => None
  end.

(** Calling a frontload function at the current time: the call is
    recorded and the fetch is in flight. *)
Definition launch (f : Fetch) (w : World) : promise Val * World :=
  let p := returned_promise (clock w) f in
  (p, {| FRONTLOAD_QUEUES := FRONTLOAD_QUEUES w; store := store w; clock := clock w;
         inflight := inflight w ++ [(p, f)]; trace := trace w ++ [EvFrontload f] |}).

(** The renderer calls and the frontload calls of a trace, in order. *)
Definition renders_of (t : list Event) : list bool :=
  omap (λ e, match e with EvRender dryRun => Some dryRun | _ => None end) t.

Definition calls_of (t : list Event) : list Fetch :=
  omap (λ e, match e with EvFrontload f => Some f | _ => None end) t.

Definition logs_of (t : list Event) : list LogMsg :=
  omap (λ e, match e with EvLog m => Some m | _ => None end) t.

(** The fetches of [inflight] that have settled by time [t], with their
    settle time. *)
Definition due (t : nat) (x : promise Val * Fetch) : option (nat * Fetch) :=
  match fst x with
  | Some (t', _) => if decide (t' ≤ t) then Some (t', snd x) else None
  | None => None
  end.

Definition not_due (t : nat) (x : promise Val * Fetch) : bool :=
  match due t x with
  | Some _ => false
  | None => true
  end.

Fixpoint insert_by_time (x : nat * Fetch) (l : list (nat * Fetch)) : list (nat * Fetch) :=
  match l with
  | [] => [x]
  | y :: rest =>
      if decide (fst x < fst y) then x :: y :: rest else y :: insert_by_time x rest
  end.

Definition in_settle_order (l : list (nat * Fetch)) : list (nat * Fetch) :=
  foldl (λ acc x, insert_by_time x acc) [] l.

(** Time passes until [t]: the fetches that settle by then write to the
    store, earliest first. *)
Definition await (t : nat) (w : World) : World :=
  let settled := in_settle_order (omap (due t) (inflight w)) in
  {| FRONTLOAD_QUEUES := FRONTLOAD_QUEUES w;
     store := foldl (λ s x, f_effect (snd x) s) (store w) settled;
     clock := clock w `max` t;
     inflight := List.filter (not_due t) (inflight w);
     trace := trace w |}.

(** ** Synchronous code that may throw *)

Inductive JsError : Type :=
| TypeError (what : string).

Inductive outcome (A : Type) : Type :=
| Ok (a : A) (w : World)
| Throw (e : JsError) (w : World).
#[global] Arguments Ok {A} a w.
#[global] Arguments Throw {A} e w.

Definition JS (A : Type) : Type := World → outcome A.

Definition js_ret {A} (a : A) : JS A := λ w, Ok a w.

Definition js_bind {A B} (m : JS A) (k : A → JS B) : JS B :=
  λ w, match m w with
       | Ok a w' => k a w'
       | Throw e w' => Throw e w'
       end.

Definition js_throw {A} (e : JsError) : JS A := λ w, Throw e w.

Definition js_modify (f : World → World) : JS unit := λ w, Ok tt (f w).

Definition js_get {A} (f : World → A) : JS A := λ w, Ok (f w) w.

(** The world a computation leaves behind, whether it returned or threw. *)
Definition world_of {A} (o : outcome A) : World :=
  match o with
  | Ok _ w => w
  | Throw _ w => w
  end.

End Model.

Notation "'let*' x ':=' m 'in' k" := (js_bind m (λ x, k))
  (at level 10, x pattern, m at level 200, k at level 200, only parsing).

(** ** The queue registry and the flush engine *)

Section Engine.

Context `{Host}.

(** [cleanQueues(index)]: without an index the whole table is replaced by
    an empty array; with one, that slot is given a fresh empty array. *)
Definition cleanQueues (index : option nat) (w : World) : World :=
  match index with
  | None => set_queues [] w
  | Some i => set_queues (JsArray.set i [] (FRONTLOAD_QUEUES w)) w
  end.

(** The [for] loop of [flushQueues]: the promises pushed to
    [frontloadPromises], in order. *)
Fixpoint flush_loop (flushOptions : FlushOptions) (queue : list Request) (w : World)
  : list (promise Val) * World :=
  match queue with
  | [] => ([], w)
  | frontload :: rest =>
      if negb (truthy (firstClientRender flushOptions)) then
        let (p, w1) := launch (fn frontload tt) w in
        let (ps, w2) := flush_loop flushOptions rest w1 in
        (p :: ps, w2)
      else if truthy (flush_noServerRender flushOptions)
              || truthy (noServerRender (options frontload)) then
        let w0 := log_if (negb production && flush_log flushOptions)
                    (LogFlushNote (componentDisplayName frontload)
                       (truthy (flush_noServerRender flushOptions))) w in
        let (p, w1) := launch (fn frontload tt) w0 in
        let (ps, w2) := flush_loop flushOptions rest w1 in
        (p :: ps, w2)
      else flush_loop flushOptions rest w
  end.

(** [flushQueues(index, options)] with [index !== undefined].  Reading
    [queue.length] of a missing slot throws. *)
Definition flushQueue (index : nat) (flushOptions : FlushOptions) : JS (promise (list Val)) :=
  λ w,
    match JsArray.get (FRONTLOAD_QUEUES w) index with
    | None => Throw (TypeError "Cannot read property 'length' of undefined") w
    | Some queue =>
        let (frontloadPromises, w1) := flush_loop flushOptions queue w in
        let w2 := cleanQueues (Some index) w1 in
        Ok (waitForAllToComplete (clock w2) frontloadPromises) w2
    end.

(** [map(FRONTLOAD_QUEUES, (_, i) => flushQueues(i))]: the inner calls get
    no options. *)
Fixpoint flush_each (indices : list nat) : JS (list (promise (list Val))) :=
  match indices with
  | [] => js_ret []
  | i :: rest =>
      let* p := flushQueue i no_flush_options in
      let* ps := flush_each rest in
      js_ret (p :: ps)
  end.

Definition flush_value (index : option nat) : Type :=
  match index with
  | Some _ => list Val
  | None => list (list Val)
  end.

(** [function flushQueues (index, options = {})] *)
Definition flushQueues (index : option nat) (flushOptions : FlushOptions)
  : JS (promise (flush_value index)) :=
  match index as i return JS (promise (flush_value i)) with
  | None =>
      let* n := js_get (λ w, length (FRONTLOAD_QUEUES w)) in
      let* ps := flush_each (seq 0 n) in
      let* promises := js_get (λ w, Promise_all (clock w) ps) in
      let* _ := js_modify (cleanQueues None) in
      js_ret promises
  | Some i => flushQueue i flushOptions
  end.

(** ** The provider *)

(** [constructor (props, context)] of [Frontload]. *)
Definition Frontload_constructor (p : FrontloadProps) (w : World) : Frontload * World :=
  let (queues, len) := JsArray.push [] (FRONTLOAD_QUEUES w) in
  ({| props := p;
      isServer := match props_isServer p with
                  | None => IS_SERVER
                  | Some b => b
                  end;
      queueIndex := len - 1;
      firstClientRenderDone := false |},
   set_queues queues w).

(** [this.componentDidMount] of [Frontload]. *)
Definition Frontload_componentDidMount (this : Frontload) (w : World) : Frontload * World :=
  ({| props := props this; isServer := isServer this; queueIndex := queueIndex this;
      firstClientRenderDone := true |},
   log_if (negb production && truthy (props_withLogging (props this))
           && negb (truthy (props_noServerRender (props this))))
     (LogFirstClientRenderDone (props_name (props this))) w).

(** [firstClientRenderDone] as [getChildContext] exposes it. *)
Definition context_firstClientRenderDone (this : Frontload) : bool :=
  if isServer this then true else firstClientRenderDone this.

(** [pushFrontload(frontload, options, lifecylePhase, childProps, logMessage)]
    of the context built by [getChildContext]. *)
Definition pushFrontload (this : Frontload) (frontload : FrontloadFn)
    (nodeOptions : NodeOptions) (lifecylePhase : LifecyclePhase)
    (childProps : Props) (logMessage : option string) : JS unit :=
  λ w,
    let isMount := phase_eqb lifecylePhase MOUNT in
    let isUpdate := phase_eqb lifecylePhase UPDATE in
    let queue := JsArray.get (FRONTLOAD_QUEUES w) (queueIndex this) in
    let noServerRender :=
      truthy (props_noServerRender (props this)) || truthy (noServerRender nodeOptions) in
    let logging :=
      negb production && truthy (props_withLogging (props this)) && truthy_str logMessage in
    if (isServer this && noServerRender)
       || (isMount && is_false (onMount nodeOptions))
       || (isUpdate && negb (truthy (onUpdate nodeOptions)))
    then Ok tt w
    else if isServer this then
      match queue with
      | None => Throw (TypeError "Cannot read property 'unshift' of undefined") w
      | Some q =>
          let entry :=
            {| fn := λ _, frontload childProps {| isMount := isMount; isUpdate := isUpdate |};
               options := nodeOptions;
               componentDisplayName := displayName childProps |} in
          Ok tt (log_if logging (LogAddedToQueue (props_name (props this)) logMessage)
                   (set_queues (JsArray.set (queueIndex this) (entry :: q) (FRONTLOAD_QUEUES w)) w))
      end
    else if noServerRender || firstClientRenderDone this then
      let (_, w1) :=
        launch (frontload childProps {| isMount := isMount; isUpdate := isUpdate |}) w in
      Ok tt (log_if logging (LogExecuted (props_name (props this)) logMessage) w1)
    else
      Ok tt (log_if logging
               (LogNotExecutedOnFirstClientRender (props_name (props this)) logMessage) w).

End Engine.

(** ** Connected components and the renderer *)

Section Rendering.

Context `{Host}.

(** The lifecycle hooks [FrontloadConnectedComponent] may install. *)
Inductive Hook : Type := componentWillMount | componentDidMount | componentDidUpdate.

(** The constructor of [FrontloadConnectedComponent]: which hooks it
    installs, and the lifecycle phase each one pushes with. *)
Definition connected_hooks (context : Frontload) : list (Hook * LifecyclePhase) :=
  if isServer context then [(componentWillMount, MOUNT)]
  else [(componentDidMount, MOUNT); (componentDidUpdate, UPDATE)].

(** [pushFrontload = (lifecyclePhase, isServer) => () => ...] of the
    connected component; [component] is [this.props.component.displayName]. *)
Definition connected_pushFrontload (context : Frontload) (frontload : FrontloadFn)
    (nodeOptions : NodeOptions) (component : option string) (componentProps : Props)
    (lifecyclePhase : LifecyclePhase) : JS unit :=
  let logMessage :=
    if negb production then None
    else Some ("for component: ["
               +:+ (if truthy_str component then default "" component else "anonymous")
               +:+ "] on ["
               +:+ (match lifecyclePhase with MOUNT => "mount" | UPDATE => "update" end)
               +:+ "]") in
  pushFrontload context frontload nodeOptions lifecyclePhase componentProps logMessage.

(** What a render makes of the tree, as far as this module is concerned:
    providers are constructed and connected components appear below one of
    them.  [provider] counts the providers constructed by the same render,
    from 0. *)
Inductive TreeEvent : Type :=
| Mount_Frontload (p : FrontloadProps)
| Mount_Connected (provider : nat) (frontload : FrontloadFn) (nodeOptions : NodeOptions)
    (component : option string) (componentProps : Props).

(** The result of one call of the render function. *)
Record Rendering : Type := {
  r_output : Output;
  r_events : list TreeEvent;
  r_store : Store;
}.

(** [render(isDryRun)], reading (and possibly writing) the store. *)
Definition Renderer : Type := bool → Store → Rendering.

(** A render to markup runs [componentWillMount] and no other hook. *)
Definition fired_by_server_render (h : Hook) : bool :=
  match h with
  | componentWillMount => true
  | _ => false
  end.

Fixpoint fire_hooks (hooks : list (Hook * LifecyclePhase)) (push : LifecyclePhase → JS unit)
  : JS unit :=
  match hooks with
  | [] => js_ret tt
  | (h, phase) :: rest =>
      let* _ := (if fired_by_server_render h then push phase else js_ret tt) in
      fire_hooks rest push
  end.

(** The tree events of one render, in order.  A connected component
    without a provider above it reads [context.frontload.isServer] of
    [undefined]. *)
Fixpoint run_events (events : list TreeEvent) (providers : list Frontload) : JS unit :=
  match events with
  | [] => js_ret tt
  | Mount_Frontload p :: rest =>
      let* this := (λ w, let (this, w') := Frontload_constructor p w in Ok this w') in
      run_events rest (providers ++ [this])
  | Mount_Connected k frontload nodeOptions component componentProps :: rest =>
      match providers !! k with
      | None => js_throw (TypeError "Cannot read property 'isServer' of undefined")
      | Some context =>
          let* _ := fire_hooks (connected_hooks context)
                      (connected_pushFrontload context frontload nodeOptions
                         component componentProps) in
          run_events rest providers
      end
  end.

(** One call [render(dryRun)] from the coordinator. *)
Definition call_render (render : Renderer) (dryRun : bool) : JS Output :=
  let* _ := js_modify (emit (EvRender dryRun)) in
  let* r := js_get (λ w, render dryRun (store w)) in
  let* _ := run_events (r_events r) [] in
  let* _ := js_modify (set_store (r_store r)) in
  js_ret (r_output r).

End Rendering.

(** ** The server render coordinator *)

Section Coordinator.

Context `{Host}.

(** Why a promise was rejected. *)
Inductive Reason : Type :=
| ReasonError (e : JsError)
| ReasonVal (v : Val).

(** How a call that returns a promise ends. *)
Inductive Completion : Type :=
| Resolved (out : Output)
| RejectedWith (r : Reason)
| Threw (e : JsError)
| NeverSettles
| OutOfFuel.

(** [FRONTLOAD_QUEUES[0].length] *)
Definition first_queue_length : JS nat :=
  λ w,
    match JsArray.get (FRONTLOAD_QUEUES w) 0 with
    | None => Throw (TypeError "Cannot read property 'length' of undefined") w
    | Some frontloadsQueue => Ok (length frontloadsQueue) w
    end.

(** The worker up to the test [newFrontloadsInThisRender === 0]: the dry
    run and the count of the first queue. *)
Definition dry_run_pass (render : Renderer) (logging : bool) (renderNumber : Z) : JS Z :=
  let* _ := js_modify (log_if logging (LogRunningPass renderNumber)) in
  let* _ := call_render render true in
  let* n := first_queue_length in
  let* _ := js_modify (log_if logging (LogTotalCount renderNumber n)) in
  js_ret (Z.of_nat n + 0)%Z.

(** The branch [newFrontloadsInThisRender === 0]. *)
Definition final_render (render : Renderer) (logging : bool) (renderNumber : Z)
    (max : option Z) : JS Output :=
  let* _ := js_modify (log_if logging (LogNoFrontloadsRemain renderNumber max)) in
  let* _ := js_modify (cleanQueues None) in
  let* finalRenderOutput := call_render render false in
  let* _ := js_modify (log_if logging LogFinalNote) in
  let* _ := js_modify (log_if logging LogFinalSucceeded) in
  let* _ := js_modify (cleanQueues None) in
  js_ret finalRenderOutput.

(** The branch [renderNumber === maxNestedFrontloadComponents] of the
    [then] callback. *)
Definition incomplete_render (render : Renderer) (logging : bool)
    (max : option Z) (totalFrontloadsInThisRender : Z) : JS Output :=
  let* incompleteRenderOutput := call_render render false in
  let* n := first_queue_length in
  let frontloadsLeftToRun := (Z.of_nat n - totalFrontloadsInThisRender)%Z in
  let warn := logging && (0 <? frontloadsLeftToRun)%Z in
  let* _ := js_modify (log_if warn (LogWarningMaxReached max frontloadsLeftToRun)) in
  let* _ := js_modify (log_if warn (LogNoteExtraPass max)) in
  let* _ := js_modify (cleanQueues None) in
  js_ret incompleteRenderOutput.

Definition z_option_eqb (a : Z) (b : option Z) : bool :=
  match b with
  | Some b' => (a =? b')%Z
  | None => false
  end.

(** [frontloadServerRenderWorker].  The recursion goes through a promise
    callback and has no bound of its own, hence the fuel: one unit per
    render pass. *)
Fixpoint frontloadServerRenderWorker (fuel : nat) (render : Renderer)
    (options : ServerRenderOptions) (renderNumber frontloadsInLastRender : Z)
    (w : World) : Completion * World :=
  match fuel with
  | 0 => (OutOfFuel, w)
  | S fuel' =>
      let logging := negb production && truthy (withLogging options) in
      let max := maxNestedFrontloadComponents options in
      match dry_run_pass render logging renderNumber w with
      | Throw e w1 => (Threw e, w1)
      | Ok totalFrontloadsInThisRender w1 =>
          let newFrontloadsInThisRender :=
            (totalFrontloadsInThisRender - frontloadsInLastRender)%Z in
          if (newFrontloadsInThisRender =? 0)%Z then
            match final_render render logging renderNumber max w1 with
            | Throw e w2 => (Threw e, w2)
            | Ok finalRenderOutput w2 => (Resolved finalRenderOutput, w2)
            end
          else
            let startFlushAt := clock w1 in
            let w1' := log_if logging (LogToRun newFrontloadsInThisRender renderNumber) w1 in
            match flushQueues None no_flush_options w1' with
            | Throw e w2 => (Threw e, w2)
            | Ok None w2 => (NeverSettles, w2)
            | Ok (Some (t, Rejected reason)) w2 => (RejectedWith (ReasonVal reason), await t w2)
            | Ok (Some (t, Fulfilled _)) w2 =>
                let w3 := await t w2 in
                let w3' := log_if logging
                             (LogRan renderNumber newFrontloadsInThisRender
                                (clock w3 - startFlushAt)) w3 in
                if z_option_eqb renderNumber max then
                  match incomplete_render render logging max totalFrontloadsInThisRender w3' with
                  | Throw e w4 => (RejectedWith (ReasonError e), w4)
                  | Ok incompleteRenderOutput w4 => (Resolved incompleteRenderOutput, w4)
                  end
                else
                  match frontloadServerRenderWorker fuel' render options
                          (renderNumber + 1)%Z
                          (frontloadsInLastRender + newFrontloadsInThisRender)%Z w3' with
                  | (Threw e, w4) => (RejectedWith (ReasonError e), w4)
                  | r => r
                  end
            end
      end
  end.

(** [if (!options.maxNestedFrontloadComponents)] *)
Definition falsy_number (n : option Z) : bool :=
  match n with
  | None => true
  | Some n' => (n' =? 0)%Z
  end.

(** [export function frontloadServerRender (render, options)] *)
Definition frontloadServerRender (fuel : nat) (render : Renderer)
    (options : option ServerRenderOptions) (w : World) : Completion * World :=
  let options1 :=
    match options with
    | None => {| withLogging := None; maxNestedFrontloadComponents := None |}
    | Some o => o
    end in
  let options2 :=
    if falsy_number (maxNestedFrontloadComponents options1)
    then {| withLogging := withLogging options1; maxNestedFrontloadComponents := Some 1%Z |}
    else options1 in
  let options3 :=
    if negb production && is_undefined (withLogging options2)
    then {| withLogging := Some true;
            maxNestedFrontloadComponents := maxNestedFrontloadComponents options2 |}
    else options2 in
  frontloadServerRenderWorker fuel render options3 1%Z 0%Z w.

End Coordinator.

(** ** Vocabulary of the statements *)

Section Vocabulary.

Context `{Host}.

(** The queue entry [pushFrontload] builds. *)
Definition entry_of (frontload : FrontloadFn) (nodeOptions : NodeOptions)
    (lifecylePhase : LifecyclePhase) (childProps : Props) : Request :=
  {| fn := λ _, frontload childProps {| isMount := phase_eqb lifecylePhase MOUNT;
                                        isUpdate := phase_eqb lifecylePhase UPDATE |};
     options := nodeOptions;
     componentDisplayName := displayName childProps |}.

(** Node options with the documented defaults filled in
    ([onMount] true, [onUpdate] false, [noServerRender] false). *)
Definition onMount_or_default (o : NodeOptions) : bool := default true (onMount o).
Definition onUpdate_or_default (o : NodeOptions) : bool := default false (onUpdate o).

(** Provider-level or node-level [noServerRender]. *)
Definition effectiveNoServerRender (this : Frontload) (o : NodeOptions) : bool :=
  truthy (props_noServerRender (props this)) || truthy (noServerRender o).

(** The lifecycle gate: the event is one the node does not listen to. *)
Definition lifecycle_skips (o : NodeOptions) (phase : LifecyclePhase) : bool :=
  match phase with
  | MOUNT => negb (onMount_or_default o)
  | UPDATE => negb (onUpdate_or_default o)
  end.

(** Whether the loop of [flushQueues] calls [frontload.fn()] for an entry. *)
Definition executes (flushOptions : FlushOptions) (frontload : Request) : bool :=
  negb (truthy (firstClientRender flushOptions))
  || truthy (flush_noServerRender flushOptions)
  || truthy (noServerRender (options frontload)).

(** Every request queued in any slot, slot by slot. *)
Definition queued (qs : list (option (list Request))) : list Request :=
  concat (omap id qs).

(** No slot of the table is a hole. *)
Definition no_holes (qs : list (option (list Request))) : Prop :=
  Forall is_Some qs.

(** Every connected component of a render has a provider above it:
    [n] providers have been mounted so far. *)
Fixpoint scoped (n : nat) (events : list TreeEvent) : bool :=
  match events with
  | [] => true
  | Mount_Frontload _ :: rest => scoped (S n) rest
  | Mount_Connected k _ _ _ _ :: rest => (k <? n) && scoped n rest
  end.

(** Operations on the registry, as a provider's life issues them. *)
Inductive RegistryOp : Type :=
| Allocate (p : FrontloadProps)
| Clean (index : option nat)
| Push (this : Frontload) (frontload : FrontloadFn) (nodeOptions : NodeOptions)
    (phase : LifecyclePhase) (childProps : Props) (logMessage : option string)
| Flush (index : nat) (flushOptions : FlushOptions)
| FlushAll (flushOptions : FlushOptions).

(** Whether an operation replaces the whole table. *)
Definition resets_all (op : RegistryOp) : bool :=
  match op with
  | Clean None | FlushAll _ => true
  | _ => false
  end.

(** Runs the operations in order; returns the slot indices the
    allocations returned, oldest first. *)
Fixpoint run_ops (ops : list RegistryOp) (w : World) : list nat * World :=
  match ops with
  | [] => ([], w)
  | op :: rest =>
      match op with
      | Allocate p =>
          let (this, w1) := Frontload_constructor p w in
          let (indices, w2) := run_ops rest w1 in
          (queueIndex this :: indices, w2)
      | Clean index => run_ops rest (cleanQueues index w)
      | Push this frontload nodeOptions phase childProps logMessage =>
          run_ops rest
            (world_of (pushFrontload this frontload nodeOptions phase childProps logMessage w))
      | Flush index flushOptions =>
          run_ops rest (world_of (flushQueues (Some index) flushOptions w))
      | FlushAll flushOptions =>
          run_ops rest (world_of (flushQueues None flushOptions w))
      end
  end.

(** The promise of a fetch settles. *)
Definition fetch_settles (f : Fetch) : Prop := is_Some (f_settles f).

(** Every frontload function a render connects returns a promise that
    settles. *)
Definition settling_events (events : list TreeEvent) : Prop :=
  Forall (λ ev, match ev with
                | Mount_Connected _ frontload _ _ componentProps =>
                    ∀ phase, fetch_settles (frontload componentProps phase)
                | Mount_Frontload _ => True
                end) events.

(** The number of providers a render mounts. *)
Fixpoint mounts (events : list TreeEvent) : nat :=
  match events with
  | [] => 0
  | Mount_Frontload _ :: rest => S (mounts rest)
  | Mount_Connected _ _ _ _ _ :: rest => mounts rest
  end.

(** An application as the coordinator expects it: every render mounts a
    provider, connected components sit below one, and fetches settle. *)
Definition well_formed (render : Renderer) : Prop :=
  ∀ dryRun s,
    scoped 0 (r_events (render dryRun s)) = true
    ∧ 0 < mounts (r_events (render dryRun s))
    ∧ settling_events (r_events (render dryRun s)).

(** Every queued request settles once executed. *)
Definition slots_settle (qs : list (option (list Request))) : Prop :=
  ∀ i q, JsArray.get qs i = Some q → Forall (λ r, fetch_settles (fn r tt)) q.

Definition healthy (w : World) : Prop :=
  no_holes (FRONTLOAD_QUEUES w) ∧ slots_settle (FRONTLOAD_QUEUES w).

(** The warning of the coordinator. *)
Definition is_warning (m : LogMsg) : bool :=
  match m with
  | LogWarningMaxReached _ _ => true
  | _ => false
  end.

(** A provider's slot is in the table. *)
Definition has_slot (w : World) (this : Frontload) : Prop :=
  is_Some (JsArray.get (FRONTLOAD_QUEUES w) (queueIndex this)).


(** [m] leaves the observation [f] of the world as it was, whether it
    returns or throws. *)
Definition js_frame {A X} (f : World → X) (m : JS A) : Prop :=
  ∀ w, f (world_of (m w)) = f w.


(** Observations that do not look at the registry, the log, the frontload
    calls, the renderer calls or the store. *)
Definition ignores_queues {X} (f : World → X) : Prop := ∀ q w, f (set_queues q w) = f w.
Definition ignores_logs {X} (f : World → X) : Prop := ∀ m w, f (emit (EvLog m) w) = f w.
Definition ignores_calls {X} (f : World → X) : Prop := ∀ x w, f (snd (launch x w)) = f w.

Definition ignores_render {X} (f : World → X) : Prop :=
  ∀ d w, f (emit (EvRender d) w) = f w.
Definition ignores_store {X} (f : World → X) : Prop :=
  ∀ s w, f (set_store s w) = f w.


End Vocabulary.

(** ** A concrete application

    A development build on the server.  Values and props are entity ids,
    the store is the list of ids loaded so far, and the renderer returns
    the store it has rendered. *)

Module Demo.

#[export] Instance demo_host : Host := {|
  Val := nat;
  Store := list nat;
  Output := list nat;
  Props := nat;
  displayName := λ _, None;
  production := false;
  IS_SERVER := true;
|}.

Definition default_options : NodeOptions :=
  {| onMount := None; onUpdate := None; noServerRender := None |}.

Definition update_only : NodeOptions :=
  {| onMount := Some false; onUpdate := Some true; noServerRender := None |}.

Definition server_props : FrontloadProps :=
  {| props_isServer := Some true; props_noServerRender := None;
     props_withLogging := None; props_name := None |}.

Definition client_props : FrontloadProps :=
  {| props_isServer := Some false; props_noServerRender := None;
     props_withLogging := None; props_name := None |}.

(** A fetch that resolves with the entity after [delay] ticks and stores it. *)
Definition fetch_ok (delay : nat) : FrontloadFn :=
  λ entity _, {| f_settles := Some (delay, Fulfilled entity);
                 f_effect := λ s, s ++ [entity] |}.

(** A fetch that rejects after [delay] ticks and stores nothing. *)
Definition fetch_fail (delay : nat) : FrontloadFn :=
  λ entity _, {| f_settles := Some (delay, Rejected entity); f_effect := λ s, s |}.

Definition loaded (entity : nat) (s : list nat) : bool := existsb (Nat.eqb entity) s.

Definition empty_world : World :=
  {| FRONTLOAD_QUEUES := []; store := []; clock := 0; inflight := []; trace := [] |}.

(** One provider with one connected component. *)
Definition flat : Renderer :=
  λ _ s, {| r_output := s;
            r_events := [Mount_Frontload server_props;
                         Mount_Connected 0 (fetch_ok 10) default_options None 1];
            r_store := s |}.

(** Entity 2 and 3 are rendered once 1 is loaded, entity 4 once 2 is:
    three levels of nesting. *)
Definition nested : Renderer :=
  λ _ s, {| r_output := s;
            r_events :=
              [Mount_Frontload server_props;
               Mount_Connected 0 (fetch_ok 10) default_options None 1]
              ++ (if loaded 1 s
                  then [Mount_Connected 0 (fetch_ok 5) default_options None 2;
                        Mount_Connected 0 (fetch_fail 7) default_options None 3]
                  else [])
              ++ (if loaded 2 s
                  then [Mount_Connected 0 (fetch_ok 7) default_options None 4]
                  else []);
            r_store := s |}.

(** A tree without any connected component. *)
Definition static : Renderer :=
  λ _ s, {| r_output := s; r_events := [Mount_Frontload server_props]; r_store := s |}.

Definition passes (n : Z) : option ServerRenderOptions :=
  Some {| withLogging := None; maxNestedFrontloadComponents := Some n |}.

(** The provider of the first slot, on the server and on the client. *)
Definition server_provider : Frontload :=
  {| props := server_props; isServer := true; queueIndex := 0;
     firstClientRenderDone := false |}.

Definition client_provider : Frontload :=
  {| props := client_props; isServer := false; queueIndex := 0;
     firstClientRenderDone := false |}.

(** Three requests in one slot: A resolves at 10, B rejects at 20, C
    resolves at 30. *)
Definition request_A : Request := entry_of (fetch_ok 10) default_options MOUNT 1.
Definition request_B : Request := entry_of (fetch_fail 20) default_options MOUNT 2.
Definition request_C : Request := entry_of (fetch_ok 30) default_options MOUNT 3.

Definition three_queued : World :=
  {| FRONTLOAD_QUEUES := [Some [request_A; request_B; request_C]];
     store := []; clock := 0; inflight := []; trace := [] |}.

Definition one_slot : World :=
  {| FRONTLOAD_QUEUES := [Some []]; store := []; clock := 0; inflight := []; trace := [] |}.

Definition first_client_render : FlushOptions :=
  {| firstClientRender := Some true; flush_noServerRender := None; flush_log := false |}.

(** Two slots holding three requests. *)
Definition two_slots : World :=
  {| FRONTLOAD_QUEUES := [Some [request_A; request_B]; Some [request_C]];
     store := []; clock := 0; inflight := []; trace := [] |}.

(** A run with a budget of one pass from the empty world, up to the last
    render: after the dry run, after the flush, after waiting 10 ticks for
    it, and after the last render. *)
Definition after_dry_run (render : Renderer) : World :=
  world_of (dry_run_pass render true 1 empty_world).

Definition after_flush (render : Renderer) : World :=
  world_of (flushQueues None no_flush_options
              (log_if true (LogToRun 1 1) (after_dry_run render))).

Definition before_last_render (render : Renderer) : World :=
  log_if true (LogRan 1 1 10) (await 10 (after_flush render)).

Definition after_last_render (render : Renderer) : World :=
  world_of (call_render render false (before_last_render render)).

End Demo.

(** ** Connected components on the client

    On the client the connected component installs [componentDidMount] and
    [componentDidUpdate].  When a tree is mounted, the hooks of the
    components below the provider run before [componentDidMount] of the
    provider itself; an update runs [componentDidUpdate]. *)

Section ClientLifecycle.

Context `{Host}.

(** The arguments of [frontloadConnect] and the props the connected
    component is rendered with. *)
Record ConnectedNode : Type := {
  node_frontload : FrontloadFn;
  node_options : NodeOptions;
  node_component : option string;
  node_props : Props;
}.

Definition hook_eqb (a b : Hook) : bool :=
  match a, b with
  | componentWillMount, componentWillMount
  | componentDidMount, componentDidMount
  | componentDidUpdate, componentDidUpdate => true
  | _, _ => false
  end.

(** The hook [h] is run on a connected component: it pushes if its
    constructor installed that hook, with the phase it installed it for. *)
Fixpoint run_hook (h : Hook) (hooks : list (Hook * LifecyclePhase))
    (push : LifecyclePhase → JS unit) : JS unit :=
  match hooks with
  | [] => js_ret tt
  | (h', phase) :: rest =>
      if hook_eqb h h' then push phase else run_hook h rest push
  end.

Definition run_hook_on (context : Frontload) (h : Hook) (node : ConnectedNode) : JS unit :=
  run_hook h (connected_hooks context)
    (connected_pushFrontload context (node_frontload node) (node_options node)
       (node_component node) (node_props node)).

Fixpoint run_hook_on_all (context : Frontload) (h : Hook) (nodes : list ConnectedNode)
  : JS unit :=
  match nodes with
  | [] => js_ret tt
  | node :: rest =>
      let* _ := run_hook_on context h node in
      run_hook_on_all context h rest
  end.

(** A tree with one provider and the connected components [nodes] below
    it is mounted. *)
Definition client_mount (p : FrontloadProps) (nodes : list ConnectedNode) : JS Frontload :=
  let* this := (λ w, let (this, w') := Frontload_constructor p w in Ok this w') in
  let* _ := run_hook_on_all this componentWillMount nodes in
  let* _ := run_hook_on_all this componentDidMount nodes in
  (λ w, let (mounted, w') := Frontload_componentDidMount this w in Ok mounted w').

(** The mounted tree is updated. *)
Definition client_update (this : Frontload) (nodes : list ConnectedNode) : JS unit :=
  run_hook_on_all this componentDidUpdate nodes.

(** The call of the frontload function of [node] in [phase]. *)
Definition call_of (phase : LifecyclePhase) (node : ConnectedNode) : Fetch :=
  node_frontload node (node_props node)
    {| isMount := phase_eqb phase MOUNT; isUpdate := phase_eqb phase UPDATE |}.

(** Whether a provider with props [p] fetches for [node] when it is first
    mounted on the client, and when it is updated afterwards. *)
Definition fetched_on_first_mount (p : FrontloadProps) (node : ConnectedNode) : bool :=
  (truthy (props_noServerRender p) || truthy (noServerRender (node_options node)))
  && negb (is_false (onMount (node_options node))).

Definition fetched_on_update (node : ConnectedNode) : bool :=
  truthy (onUpdate (node_options node)).

End ClientLifecycle.

(** ** Further vocabulary *)

Section MoreVocabulary.

Context `{Host}.

(** Whether a provider constructed with props [p] takes itself to be on
    the server. *)
Definition provider_isServer (p : FrontloadProps) : bool :=
  match props_isServer p with
  | None => IS_SERVER
  | Some b => b
  end.

(** Whether a connected component queues a request when it appears in a
    render to markup, below a provider constructed with props [p]. *)
Definition queued_on_server (p : FrontloadProps) (nodeOptions : NodeOptions) : bool :=
  provider_isServer p
  && negb (truthy (props_noServerRender p) || truthy (noServerRender nodeOptions))
  && negb (is_false (onMount nodeOptions)).


(** A render of one provider on the server with the connected components
    [nodes] below it, in the order in which they appear. *)
Definition one_provider (p : FrontloadProps) (nodes : list ConnectedNode) : list TreeEvent :=
  Mount_Frontload p
  :: map (λ node, Mount_Connected 0 (node_frontload node) (node_options node)
                    (node_component node) (node_props node)) nodes.


(** Operations on the registry that code outside the module can cause. *)
Definition from_outside (op : RegistryOp) : bool :=
  match op with
  | Clean _ => false
  | _ => true
  end.

(** The table of the world has no hole. *)
Definition table_has_no_holes (w : World) : Prop := no_holes (FRONTLOAD_QUEUES w).

(** [m] keeps the property [P] of the world, whether it returns or
    throws. *)
Definition js_keeps {A} (P : World → Prop) (m : JS A) : Prop :=
  ∀ w, P w → P (world_of (m w)).

End MoreVocabulary.

(** ** Further concrete applications *)

Module MoreDemo.

Import Demo.

(** A renderer that mounts neither a provider nor a connected component. *)
Definition bare : Renderer :=
  λ _ s, {| r_output := s; r_events := []; r_store := s |}.



(** Four connected components: the defaults, [noServerRender],
    [onUpdate], and [noServerRender] with [onMount: false]. *)
Definition node_default : ConnectedNode :=
  {| node_frontload := fetch_ok 10; node_options := default_options;
     node_component := None; node_props := 1 |}.

Definition node_client_only : ConnectedNode :=
  {| node_frontload := fetch_ok 5;
     node_options := {| onMount := None; onUpdate := None; noServerRender := Some true |};
     node_component := None; node_props := 2 |}.

Definition node_updating : ConnectedNode :=
  {| node_frontload := fetch_fail 7;
     node_options := {| onMount := None; onUpdate := Some true; noServerRender := None |};
     node_component := None; node_props := 3 |}.

Definition node_never_on_mount : ConnectedNode :=
  {| node_frontload := fetch_ok 7;
     node_options :=
       {| onMount := Some false; onUpdate := Some true; noServerRender := Some true |};
     node_component := None; node_props := 4 |}.

Definition four_nodes : list ConnectedNode :=
  [node_default; node_client_only; node_updating; node_never_on_mount].

(** One provider with two connected components that load on the server. *)
Definition two_nodes : Renderer :=
  λ _ s, {| r_output := s;
            r_events := one_provider server_props [node_default; node_updating];
            r_store := s |}.


(** The client provider after its first mount. *)
Definition mounted_client_provider : Frontload :=
  {| props := client_props; isServer := false; queueIndex := 0;
     firstClientRenderDone := true |}.

Definition quiet : ServerRenderOptions :=
  {| withLogging := Some false; maxNestedFrontloadComponents := Some 2%Z |}.

Definition no_budget : ServerRenderOptions :=
  {| withLogging := Some true; maxNestedFrontloadComponents := None |}.

(** A provider is constructed, two components push, the slot is flushed,
    a second provider is constructed and the whole table is flushed. *)
Definition outside_ops : list RegistryOp :=
  [Allocate server_props;
   Push server_provider (fetch_ok 10) default_options MOUNT 1 None;
   Push server_provider (fetch_fail 20) default_options MOUNT 2 None;
   Flush 0 no_flush_options;
   Allocate client_props;
   FlushAll first_client_render].

End MoreDemo.

(** * Properties *)

(** ** Arrays *)

Module JsArrayFacts.
Import JsArray.

Lemma get_set_eq {A} (arr : list (option A)) i x :
  get (set i x arr) i = Some x.
Proof.
  unfold get. revert arr.
  induction i as [|i IH]; intros [|slot rest]; simpl; try reflexivity.
  - apply (IH []).
  - apply IH.
Qed.

Lemma get_set_ne {A} (arr : list (option A)) i j x :
  i ≠ j → get (set i x arr) j = get arr j.
Proof.
  unfold get. revert arr j.
  induction i as [|i IH]; intros [|slot rest] [|j] Hne; simpl; try congruence.
  - specialize (IH [] j). rewrite lookup_nil in IH. apply IH. congruence.
  - apply IH. congruence.
Qed.

Lemma set_length_lt {A} (arr : list (option A)) i x :
  i < length arr → length (set i x arr) = length arr.
Proof.
  revert arr. induction i as [|i IH]; intros [|slot rest] Hlt; simpl in *; try lia.
  rewrite IH; lia.
Qed.

Lemma set_length_ge {A} (arr : list (option A)) i x :
  length arr ≤ i → length (set i x arr) = S i.
Proof.
  revert arr. induction i as [|i IH]; intros [|slot rest] Hge; simpl in *; try lia.
  - rewrite (IH []); simpl; lia.
  - rewrite IH; lia.
Qed.

Lemma set_length_mono {A} (arr : list (option A)) i x :
  length arr ≤ length (set i x arr).
Proof.
  destruct (decide (i < length arr)) as [Hlt|Hge].
  - rewrite set_length_lt; lia.
  - rewrite set_length_ge; lia.
Qed.

Lemma get_Some_lt {A} (arr : list (option A)) i x :
  get arr i = Some x → i < length arr.
Proof.
  unfold get. intros Hget. destruct (arr !! i) as [o|] eqn:E; [|discriminate].
  eapply lookup_lt_Some; eauto.
Qed.

Lemma set_in_range {A} (arr : list (option A)) i x :
  i < length arr → set i x arr = <[i := Some x]> arr.
Proof.
  revert arr. induction i as [|i IH]; intros [|slot rest] Hlt; simpl in *;
    try lia; try reflexivity.
  rewrite IH by lia. reflexivity.
Qed.

Lemma get_app_new {A} (arr : list (option A)) x :
  get (arr ++ [Some x]) (length arr) = Some x.
Proof.
  unfold get. rewrite lookup_app_r by lia. rewrite Nat.sub_diag. reflexivity.
Qed.

Lemma get_app_old {A} (arr : list (option A)) x i :
  i < length arr → get (arr ++ [x]) i = get arr i.
Proof. intros Hlt. unfold get. rewrite lookup_app_l by lia. reflexivity. Qed.

End JsArrayFacts.

(** ** The settle-join *)

Section PromiseFacts.

Context `{Host}.

Lemma first_rejection_catch (ps : list (promise Val)) :
  first_rejection (map catch_identity ps) = None.
Proof.
  induction ps as [|[[t [v|e]]|] ps IH]; simpl; rewrite ?IH; reflexivity.
Qed.

Lemma first_rejection_None_iff {A} (ps : list (promise A)) :
  first_rejection ps = None ↔ Forall (λ p, ∀ t e, p ≠ Some (t, Rejected e)) ps.
Proof.
  induction ps as [|p ps IH]; simpl.
  - split; [constructor | reflexivity].
  - destruct p as [[t [v|e]]|].
    + rewrite IH. split; [intros Hall; constructor; [congruence | exact Hall]|].
      intros Hall. inversion Hall; assumption.
    + split.
      * destruct (first_rejection ps) as [[t' e']|]; [case_decide|]; discriminate.
      * intros Hall. inversion Hall as [|? ? Hp _]. exfalso. exact (Hp t e eq_refl).
    + rewrite IH. split; [intros Hall; constructor; [congruence | exact Hall]|].
      intros Hall. inversion Hall; assumption.
Qed.

Lemma all_fulfilled_Some {A} now (ps : list (promise A)) T vs :
  all_fulfilled now ps = Some (T, vs) →
  now ≤ T ∧ length vs = length ps
  ∧ Forall (λ p, ∃ t v, p = Some (t, Fulfilled v) ∧ t ≤ T) ps
  ∧ (T = now ∨ Exists (λ p, ∃ v, p = Some (T, Fulfilled v)) ps).
Proof.
  revert T vs. induction ps as [|p ps IH]; simpl; intros T vs Hall.
  - inversion Hall; subst. repeat split; auto.
  - destruct p as [[t [v|e]]|]; try discriminate.
    destruct (all_fulfilled now ps) as [[t' vs']|]; [|discriminate].
    inversion Hall; subst; clear Hall.
    destruct (IH t' vs' eq_refl) as (Hnow & Hlen & Hle & Hmax).
    split; [lia|]. split; [simpl; lia|]. split.
    + constructor; [exists t, v; split; [reflexivity | lia]|].
      eapply Forall_impl; [exact Hle|].
      intros q (tq & vq & -> & Hq). exists tq, vq. split; [reflexivity | lia].
    + destruct (decide (t' ≤ t)) as [Hc|Hc].
      * right. apply Exists_cons_hd. exists v. do 2 f_equal. lia.
      * replace (t `max` t') with t' by lia.
        destruct Hmax as [->|Hex]; [left; reflexivity | right; apply Exists_cons_tl, Hex].
Qed.

Lemma all_fulfilled_None {A} now (ps : list (promise A)) :
  all_fulfilled now ps = None ↔ Exists (λ p, ∀ t v, p ≠ Some (t, Fulfilled v)) ps.
Proof.
  induction ps as [|p ps IH]; simpl.
  - split; [discriminate | intros Hex; inversion Hex].
  - destruct p as [[t [v|e]]|].
    + destruct (all_fulfilled now ps) as [[t' vs']|].
      * split; [discriminate|]. intros Hex. inversion Hex as [? ? Hp|? ? Hp]; subst.
        -- exfalso. exact (Hp t v eq_refl).
        -- apply IH in Hp. discriminate.
      * split; [|reflexivity]. intros _. apply Exists_cons_tl, IH. reflexivity.
    + split; [|reflexivity]. intros _. apply Exists_cons_hd. congruence.
    + split; [|reflexivity]. intros _. apply Exists_cons_hd. congruence.
Qed.


(** It settles exactly when every input settles. *)
Lemma waitForAllToComplete_settles now (ps : list (promise Val)) :
  is_Some (waitForAllToComplete now ps) ↔ Forall is_Some ps.
Proof.
  unfold waitForAllToComplete, Promise_all. rewrite first_rejection_catch.
  destruct (all_fulfilled now (map catch_identity ps)) as [[t' vs]|] eqn:E.
  - split; [intros _ | intros _; eexists; reflexivity].
    apply all_fulfilled_Some in E as (_ & _ & Hall & _).
    rewrite Forall_map in Hall. eapply Forall_impl; [exact Hall|].
    intros [p|] (t & v & Hp & _); [eexists; reflexivity | discriminate].
  - split; [intros [x Hx]; discriminate|].
    intros Hall. exfalso.
    apply all_fulfilled_None in E. rewrite List.Exists_exists in E.
    destruct E as (q & Hin & Hq). apply List.in_map_iff in Hin.
    destruct Hin as (p & <- & Hin).
    rewrite List.Forall_forall in Hall.
    destruct (Hall p Hin) as [[tp [v|e]] ->]; simpl in Hq.
    + exact (Hq tp v eq_refl).
    + exact (Hq tp e eq_refl).
Qed.

(** When it settles, it fulfils with one value per input, and not before
    the last input has settled. *)
Lemma waitForAllToComplete_fulfils now (ps : list (promise Val)) T s :
  waitForAllToComplete now ps = Some (T, s) →
  ∃ vs, s = Fulfilled vs ∧ length vs = length ps ∧ now ≤ T
        ∧ Forall (λ p, ∃ t o, p = Some (t, o) ∧ t ≤ T) ps
        ∧ (T = now ∨ Exists (λ p, ∃ o, p = Some (T, o)) ps).
Proof.
  unfold waitForAllToComplete, Promise_all. rewrite first_rejection_catch.
  destruct (all_fulfilled now (map catch_identity ps)) as [[t' vs]|] eqn:E; [|discriminate].
  intros Heq. inversion Heq; subst; clear Heq.
  apply all_fulfilled_Some in E as (Hnow & Hlen & Hall & Hmax).
  exists vs. rewrite length_map in Hlen. repeat split; try assumption.
  - rewrite Forall_map in Hall. eapply Forall_impl; [exact Hall|].
    intros [[tp [v|e]]|] (t & v' & Hp & Hle); simpl in Hp; inversion Hp; subst;
      eexists _, _; split; try reflexivity; assumption.
  - destruct Hmax as [->|Hex]; [left; reflexivity | right].
    rewrite Exists_map in Hex. eapply Exists_impl; [exact Hex|].
    intros [[tp [v|e]]|] (v' & Hp); simpl in Hp; inversion Hp; subst; eexists; reflexivity.
Qed.

End PromiseFacts.

(** ** The flush engine *)

Section EngineFacts.

Context `{Host}.

Lemma renders_of_app (t1 t2 : list Event) :
  renders_of (t1 ++ t2) = renders_of t1 ++ renders_of t2.
Proof. apply omap_app. Qed.

Lemma calls_of_app (t1 t2 : list Event) :
  calls_of (t1 ++ t2) = calls_of t1 ++ calls_of t2.
Proof. apply omap_app. Qed.

Lemma logs_of_app (t1 t2 : list Event) :
  logs_of (t1 ++ t2) = logs_of t1 ++ logs_of t2.
Proof. apply omap_app. Qed.

(** Logging touches nothing but the log. *)
Lemma log_if_frame cond m w :
  FRONTLOAD_QUEUES (log_if cond m w) = FRONTLOAD_QUEUES w
  ∧ store (log_if cond m w) = store w
  ∧ clock (log_if cond m w) = clock w
  ∧ inflight (log_if cond m w) = inflight w
  ∧ renders_of (trace (log_if cond m w)) = renders_of (trace w)
  ∧ calls_of (trace (log_if cond m w)) = calls_of (trace w).
Proof.
  destruct cond; simpl; repeat split; try reflexivity.
  - rewrite renders_of_app. simpl. apply app_nil_r.
  - rewrite calls_of_app. simpl. apply app_nil_r.
Qed.

Lemma log_if_trace cond m w :
  trace (log_if cond m w) = trace w ++ (if cond then [EvLog m] else []).
Proof. destruct cond; simpl; [reflexivity | symmetry; apply app_nil_r]. Qed.

(** The loop of [flushQueues] calls [fn] for exactly the entries that
    [executes] selects, in queue order, and touches neither the registry
    nor the store. *)
Lemma flush_loop_spec flushOptions queue w :
  let executed := List.filter (executes flushOptions) queue in
  let ps := fst (flush_loop flushOptions queue w) in
  let w' := snd (flush_loop flushOptions queue w) in
  ps = map (λ r, returned_promise (clock w) (fn r tt)) executed
  ∧ FRONTLOAD_QUEUES w' = FRONTLOAD_QUEUES w
  ∧ store w' = store w
  ∧ clock w' = clock w
  ∧ inflight w' = inflight w
                  ++ map (λ r, (returned_promise (clock w) (fn r tt), fn r tt)) executed
  ∧ calls_of (trace w') = calls_of (trace w) ++ map (λ r, fn r tt) executed
  ∧ renders_of (trace w') = renders_of (trace w).
Proof.
  revert w. induction queue as [|frontload rest IH]; intros w; simpl.
  - rewrite !app_nil_r. repeat split; reflexivity.
  - destruct (truthy (firstClientRender flushOptions)) eqn:Efirst; simpl.
    + destruct (truthy (flush_noServerRender flushOptions)
                || truthy (noServerRender (options frontload))) eqn:Ensr; simpl.
      * assert (Hex : executes flushOptions frontload = true).
        { unfold executes. rewrite Efirst. simpl. exact Ensr. }
        rewrite Hex.
        destruct (log_if_frame (negb production && flush_log flushOptions)
                    (LogFlushNote (componentDisplayName frontload)
                       (truthy (flush_noServerRender flushOptions))) w)
          as (Hq & Hs & Hc & Hi & Hr & Hcalls).
        set (w0 := log_if _ _ w) in *.
        set (w1 := Build_World _ _ _ _ _).
        specialize (IH w1).
        destruct (flush_loop flushOptions rest w1) as [ps w2].
        subst w1. simpl in IH |- *.
        destruct IH as (-> & -> & -> & -> & -> & -> & ->).
        rewrite Hc, Hi, Hq, Hs, calls_of_app, renders_of_app, Hr, Hcalls. simpl.
        rewrite !app_nil_r, <- !app_assoc. simpl. repeat split; reflexivity.
      * assert (Hex : executes flushOptions frontload = false).
        { unfold executes. rewrite Efirst. simpl. exact Ensr. }
        rewrite Hex. apply IH.
    + assert (Hex : executes flushOptions frontload = true).
      { unfold executes. rewrite Efirst. reflexivity. }
      rewrite Hex.
      set (w1 := Build_World _ _ _ _ _).
      specialize (IH w1).
      destruct (flush_loop flushOptions rest w1) as [ps w2].
      subst w1. simpl in IH |- *.
      destruct IH as (-> & -> & -> & -> & -> & -> & ->).
      rewrite calls_of_app, renders_of_app. simpl.
      rewrite !app_nil_r, <- !app_assoc. simpl. repeat split; reflexivity.
Qed.

(** A flush of an existing slot returns the join of the promises of the
    executed entries and leaves the slot empty. *)
Lemma flushQueue_spec index flushOptions w queue :
  JsArray.get (FRONTLOAD_QUEUES w) index = Some queue →
  let executed := List.filter (executes flushOptions) queue in
  ∃ w',
    flushQueue index flushOptions w
    = Ok (waitForAllToComplete (clock w)
            (map (λ r, returned_promise (clock w) (fn r tt)) executed)) w'
    ∧ FRONTLOAD_QUEUES w' = JsArray.set index [] (FRONTLOAD_QUEUES w)
    ∧ store w' = store w
    ∧ clock w' = clock w
    ∧ inflight w' = inflight w
                    ++ map (λ r, (returned_promise (clock w) (fn r tt), fn r tt)) executed
    ∧ calls_of (trace w') = calls_of (trace w) ++ map (λ r, fn r tt) executed
    ∧ renders_of (trace w') = renders_of (trace w).
Proof.
  intros Hget executed. unfold flushQueue. rewrite Hget.
  destruct (flush_loop_spec flushOptions queue w) as (Hps & Hq & Hs & Hc & Hi & Hcalls & Hr).
  destruct (flush_loop flushOptions queue w) as [ps w1]. simpl in *.
  eexists. split; [rewrite Hc, Hps; reflexivity|].
  simpl. rewrite Hq. repeat split; assumption.
Qed.

End EngineFacts.

(** ** Frames: what a computation leaves alone *)

Section Frames.

Context `{Host}.

Lemma js_frame_ret {A X} (f : World → X) (a : A) : js_frame f (js_ret a).
Proof. intros w. reflexivity. Qed.

Lemma js_frame_throw {A X} (f : World → X) e : js_frame f (@js_throw _ A e).
Proof. intros w. reflexivity. Qed.

Lemma js_frame_get {A X} (f : World → X) (g : World → A) : js_frame f (js_get g).
Proof. intros w. reflexivity. Qed.

Lemma js_frame_modify {X} (f : World → X) (g : World → World) :
  (∀ w, f (g w) = f w) → js_frame f (js_modify g).
Proof. intros Hg w. apply Hg. Qed.

Lemma js_frame_bind {A B X} (f : World → X) (m : JS A) (k : A → JS B) :
  js_frame f m → (∀ a, js_frame f (k a)) → js_frame f (js_bind m k).
Proof.
  intros Hm Hk w. unfold js_bind. specialize (Hm w).
  destruct (m w) as [a w'|e w']; simpl in *.
  - rewrite Hk. exact Hm.
  - exact Hm.
Qed.

Lemma ignores_logs_log_if {X} (f : World → X) cond m w :
  ignores_logs f → f (log_if cond m w) = f w.
Proof. intros Hf. destruct cond; [apply Hf | reflexivity]. Qed.

(** The observations used below. *)
Lemma renders_ignore :
  ignores_queues (λ w, renders_of (trace w))
  ∧ ignores_logs (λ w, renders_of (trace w))
  ∧ ignores_calls (λ w, renders_of (trace w)).
Proof.
  repeat split; intros ? w; simpl; try reflexivity;
    rewrite renders_of_app; simpl; apply app_nil_r.
Qed.

Lemma calls_ignore :
  ignores_queues (λ w, calls_of (trace w)) ∧ ignores_logs (λ w, calls_of (trace w)).
Proof.
  repeat split; intros ? w; simpl; try reflexivity.
  rewrite calls_of_app; simpl; apply app_nil_r.
Qed.

Lemma inflight_ignore : ignores_queues inflight ∧ ignores_logs inflight.
Proof. repeat split. Qed.

Lemma clock_ignore : ignores_queues clock ∧ ignores_logs clock ∧ ignores_calls clock.
Proof. repeat split. Qed.

Lemma store_ignore : ignores_queues store ∧ ignores_logs store ∧ ignores_calls store.
Proof. repeat split. Qed.

Lemma queues_ignore : ignores_logs FRONTLOAD_QUEUES ∧ ignores_calls FRONTLOAD_QUEUES.
Proof. repeat split. Qed.

(** *** The push on the server *)

Lemma pushFrontload_server_frame {X} (f : World → X) this frontload nodeOptions phase
    childProps logMessage :
  isServer this = true → ignores_queues f → ignores_logs f →
  js_frame f (pushFrontload this frontload nodeOptions phase childProps logMessage).
Proof.
  intros Hserver Hq Hl w. unfold pushFrontload. rewrite Hserver. simpl.
  destruct (_ || _ || _); [reflexivity|].
  destruct (JsArray.get _ _); [|reflexivity].
  simpl. rewrite ignores_logs_log_if by assumption. apply Hq.
Qed.

Lemma fire_hooks_connected_frame {X} (f : World → X) context frontload nodeOptions
    component componentProps :
  ignores_queues f → ignores_logs f →
  js_frame f (fire_hooks (connected_hooks context)
                (connected_pushFrontload context frontload nodeOptions component componentProps)).
Proof.
  intros Hq Hl. unfold connected_hooks.
  destruct (isServer context) eqn:Hserver; simpl.
  - apply js_frame_bind; [|intros; apply js_frame_ret].
    unfold connected_pushFrontload. apply pushFrontload_server_frame; assumption.
  - repeat (apply js_frame_bind; [apply js_frame_ret | intros]). apply js_frame_ret.
Qed.

Lemma run_events_frame {X} (f : World → X) events providers :
  ignores_queues f → ignores_logs f → js_frame f (run_events events providers).
Proof.
  intros Hq Hl. revert providers.
  induction events as [|[p|k frontload nodeOptions component componentProps] rest IH];
    intros providers; simpl.
  - apply js_frame_ret.
  - apply js_frame_bind; [|intros; apply IH].
    intros w. simpl. apply Hq.
  - destruct (providers !! k); [|apply js_frame_throw].
    apply js_frame_bind; [|intros; apply IH].
    apply fire_hooks_connected_frame; assumption.
Qed.

(** *** The flush *)

Lemma flush_loop_frame {X} (f : World → X) flushOptions queue w :
  ignores_logs f → ignores_calls f → f (snd (flush_loop flushOptions queue w)) = f w.
Proof.
  intros Hl Hc. revert w. induction queue as [|frontload rest IH]; intros w; simpl.
  - reflexivity.
  - destruct (negb _).
    + set (w1 := Build_World _ _ _ _ _). specialize (IH w1).
      destruct (flush_loop flushOptions rest w1) as [ps w2]. simpl in *.
      rewrite IH. apply (Hc (fn frontload tt) w).
    + destruct (_ || _); [|apply IH].
      set (w1 := Build_World _ _ _ _ _). specialize (IH w1).
      destruct (flush_loop flushOptions rest w1) as [ps w2]. simpl in *.
      rewrite IH. subst w1.
      rewrite <- (ignores_logs_log_if f (negb production && flush_log flushOptions)
                   (LogFlushNote (componentDisplayName frontload)
                      (truthy (flush_noServerRender flushOptions))) w Hl).
      apply (Hc (fn frontload tt)).
Qed.

Lemma flushQueue_frame {X} (f : World → X) index flushOptions :
  ignores_queues f → ignores_logs f → ignores_calls f →
  js_frame f (flushQueue index flushOptions).
Proof.
  intros Hq Hl Hc w. unfold flushQueue.
  destruct (JsArray.get _ _) as [queue|]; [|reflexivity].
  pose proof (flush_loop_frame f flushOptions queue w Hl Hc) as Hloop.
  destruct (flush_loop flushOptions queue w) as [ps w1]. simpl in *.
  rewrite Hq. exact Hloop.
Qed.

Lemma flush_each_frame {X} (f : World → X) indices :
  ignores_queues f → ignores_logs f → ignores_calls f → js_frame f (flush_each indices).
Proof.
  intros Hq Hl Hc. induction indices as [|i rest IH]; simpl.
  - apply js_frame_ret.
  - apply js_frame_bind; [apply flushQueue_frame; assumption|intros].
    apply js_frame_bind; [exact IH | intros; apply js_frame_ret].
Qed.

Lemma flushQueues_frame {X} (f : World → X) index flushOptions :
  ignores_queues f → ignores_logs f → ignores_calls f →
  js_frame f (flushQueues index flushOptions).
Proof.
  intros Hq Hl Hc. destruct index as [i|]; simpl.
  - apply flushQueue_frame; assumption.
  - apply js_frame_bind; [apply js_frame_get | intros n].
    apply js_frame_bind; [apply flush_each_frame; assumption | intros ps].
    apply js_frame_bind; [apply js_frame_get | intros p].
    apply js_frame_bind; [|intros; apply js_frame_ret].
    apply js_frame_modify. intros w. apply Hq.
Qed.

End Frames.

(** ** Rendering *)

Section RenderingFacts.

Context `{Host}.

Import JsArray JsArrayFacts.

(** A freshly constructed provider owns the last slot, which is empty. *)
Lemma Frontload_constructor_spec p w :
  let this := fst (Frontload_constructor p w) in
  let w' := snd (Frontload_constructor p w) in
  queueIndex this = length (FRONTLOAD_QUEUES w)
  ∧ FRONTLOAD_QUEUES w' = FRONTLOAD_QUEUES w ++ [Some []]
  ∧ get (FRONTLOAD_QUEUES w') (queueIndex this) = Some []
  ∧ firstClientRenderDone this = false
  ∧ props this = p.
Proof.
  simpl. rewrite Nat.sub_0_r. repeat split; try reflexivity. apply get_app_new.
Qed.

Lemma has_slot_constructor p w this :
  has_slot w this → has_slot (snd (Frontload_constructor p w)) this.
Proof.
  unfold has_slot. simpl. intros [q Hq].
  rewrite get_app_old by (eapply get_Some_lt; eauto). eauto.
Qed.

Lemma has_slot_set w this i q :
  has_slot w this → has_slot (set_queues (set i q (FRONTLOAD_QUEUES w)) w) this.
Proof.
  unfold has_slot. simpl. intros Hslot.
  destruct (decide (i = queueIndex this)) as [->|Hne].
  - rewrite get_set_eq. eauto.
  - rewrite get_set_ne by assumption. exact Hslot.
Qed.

Lemma has_slot_log_if cond m w this : has_slot w this → has_slot (log_if cond m w) this.
Proof. unfold has_slot. destruct cond; auto. Qed.




(** How a call of the renderer ends and what it leaves behind. *)
Lemma call_render_renders render dryRun w :
  renders_of (trace (world_of (call_render render dryRun w)))
  = renders_of (trace w) ++ [dryRun].
Proof.
  unfold call_render, js_bind at 1, js_modify.
  set (w1 := emit (EvRender dryRun) w).
  unfold js_bind at 1, js_get.
  assert (Hw1 : renders_of (trace w1) = renders_of (trace w) ++ [dryRun]).
  { subst w1. simpl. rewrite renders_of_app. reflexivity. }
  rewrite <- Hw1.
  apply (js_frame_bind (λ w, renders_of (trace w))).
  - apply run_events_frame; apply renders_ignore.
  - intros _. apply js_frame_bind; [|intros; apply js_frame_ret].
    apply js_frame_modify. reflexivity.
Qed.

Lemma call_render_frame {X} (f : World → X) render dryRun :
  ignores_queues f → ignores_logs f → ignores_render f → ignores_store f →
  js_frame f (call_render render dryRun).
Proof.
  intros Hq Hl Hr Hs. unfold call_render.
  apply js_frame_bind; [apply js_frame_modify; intros; apply Hr | intros _].
  apply js_frame_bind; [apply js_frame_get | intros r].
  apply js_frame_bind; [apply run_events_frame; assumption | intros _].
  apply js_frame_bind; [apply js_frame_modify; intros; apply Hs | intros _].
  apply js_frame_ret.
Qed.

Lemma calls_ignore_render :
  ignores_render (λ w, calls_of (trace w)) ∧ ignores_store (λ w, calls_of (trace w)).
Proof.
  split; intros ? w; simpl; [|reflexivity].
  rewrite calls_of_app. simpl. apply app_nil_r.
Qed.

Lemma inflight_ignore_render : ignores_render inflight ∧ ignores_store inflight.
Proof. split; intros ? w; reflexivity. Qed.


End RenderingFacts.

(** ** The whole-registry flush *)

Section FlushAllFacts.

Context `{Host}.

Import JsArray JsArrayFacts.

Lemma set_app_middle {A} (done rest : list (option A)) y x :
  set (length done) x (done ++ y :: rest) = done ++ Some x :: rest.
Proof. induction done as [|d done IH]; simpl; [reflexivity | rewrite IH; reflexivity]. Qed.

Lemma get_app_middle {A} (done rest : list (option A)) q :
  get (done ++ Some q :: rest) (length done) = Some q.
Proof.
  unfold get. rewrite lookup_app_r by lia. rewrite Nat.sub_diag. reflexivity.
Qed.

Lemma filter_executes_no_options (q : list Request) :
  List.filter (executes no_flush_options) q = q.
Proof.
  induction q as [|r q IH]; simpl; [reflexivity|].
  rewrite IH. reflexivity.
Qed.




(** Flushing the slots [todo] that follow the slots [done]: every queued
    entry is executed, and every flushed slot is left empty. *)
Lemma flush_each_todo todo done w :
  FRONTLOAD_QUEUES w = done ++ todo → no_holes todo →
  ∃ ps w',
    flush_each (seq (length done) (length todo)) w = Ok ps w'
    ∧ ps = map (λ q, waitForAllToComplete (clock w)
                       (map (λ r, returned_promise (clock w) (fn r tt)) q))
             (omap id todo)
    ∧ FRONTLOAD_QUEUES w' = done ++ map (λ _, Some []) todo
    ∧ store w' = store w
    ∧ clock w' = clock w
    ∧ inflight w' = inflight w
                    ++ map (λ r, (returned_promise (clock w) (fn r tt), fn r tt)) (queued todo)
    ∧ calls_of (trace w') = calls_of (trace w) ++ map (λ r, fn r tt) (queued todo)
    ∧ renders_of (trace w') = renders_of (trace w).
Proof.
  revert done w. induction todo as [|slot todo IH]; intros done w Hqueues Hholes; simpl.
  - exists [], w. unfold queued. simpl. rewrite !app_nil_r.
    repeat split; try reflexivity. rewrite Hqueues, !app_nil_r. reflexivity.
  - inversion Hholes as [|? ? [q ->] Htodo]; subst.
    unfold js_bind.
    destruct (flushQueue_spec (length done) no_flush_options w q) as
      (w1 & Hflush & Hq1 & Hs1 & Hc1 & Hi1 & Hcalls1 & Hr1).
    { rewrite Hqueues. apply get_app_middle. }
    rewrite filter_executes_no_options in Hflush, Hi1, Hcalls1.
    rewrite Hflush.
    destruct (IH (done ++ [Some []]) w1) as
      (ps & w2 & Heach & Hps & Hq2 & Hs2 & Hc2 & Hi2 & Hcalls2 & Hr2).
    { rewrite Hq1, Hqueues, set_app_middle, <- app_assoc. reflexivity. }
    { exact Htodo. }
    rewrite length_app, Nat.add_1_r in Heach. rewrite Heach.
    eexists _, w2. split; [reflexivity|].
    unfold queued in *. simpl.
    rewrite Hps, Hq2, Hs2, Hc2, Hi2, Hcalls2, Hr2, Hc1, Hs1, Hi1, Hcalls1, Hr1.
    rewrite !map_app, <- !app_assoc. simpl.
    repeat split; reflexivity.
Qed.

(** The whole-registry flush of a table without holes. *)
Lemma flushQueues_all_spec flushOptions w :
  no_holes (FRONTLOAD_QUEUES w) →
  ∃ w',
    flushQueues None flushOptions w
    = Ok (Promise_all (clock w)
            (map (λ q, waitForAllToComplete (clock w)
                         (map (λ r, returned_promise (clock w) (fn r tt)) q))
               (omap id (FRONTLOAD_QUEUES w)))) w'
    ∧ FRONTLOAD_QUEUES w' = []
    ∧ store w' = store w
    ∧ clock w' = clock w
    ∧ inflight w' = inflight w
                    ++ map (λ r, (returned_promise (clock w) (fn r tt), fn r tt))
                         (queued (FRONTLOAD_QUEUES w))
    ∧ calls_of (trace w') = calls_of (trace w)
                            ++ map (λ r, fn r tt) (queued (FRONTLOAD_QUEUES w))
    ∧ renders_of (trace w') = renders_of (trace w).
Proof.
  intros Hholes. simpl. unfold js_bind at 1, js_get at 1.
  destruct (flush_each_todo (FRONTLOAD_QUEUES w) [] w eq_refl Hholes) as
    (ps & w1 & Heach & Hps & Hq & Hs & Hc & Hi & Hcalls & Hr).
  simpl in Heach. unfold js_bind at 1. rewrite Heach.
  unfold js_bind, js_get, js_modify, js_ret. simpl.
  eexists. split; [rewrite Hc, Hps; reflexivity|].
  simpl. repeat split; assumption.
Qed.

End FlushAllFacts.

(** ** The coordinator *)

Section CoordinatorFacts.

Context `{Host}.

Lemma first_queue_length_frame {X} (f : World → X) : js_frame f first_queue_length.
Proof. intros w. unfold first_queue_length. destruct (JsArray.get _ _); reflexivity. Qed.

Lemma await_trace t w : trace (await t w) = trace w.
Proof. reflexivity. Qed.

Lemma log_if_renders cond m w :
  renders_of (trace (log_if cond m w)) = renders_of (trace w).
Proof. apply (ignores_logs_log_if (λ w, renders_of (trace w))), renders_ignore. Qed.

Lemma js_bind_modify {B} (g : World → World) (k : unit → JS B) w :
  js_bind (js_modify g) k w = k tt (g w).
Proof. reflexivity. Qed.

(** If [m] makes the renderer calls [rs] and what follows makes none, the
    whole makes the calls [rs]. *)
Lemma js_bind_renders {A B} (m : JS A) (k : A → JS B) rs :
  (∀ w, renders_of (trace (world_of (m w))) = renders_of (trace w) ++ rs) →
  (∀ a, js_frame (λ w, renders_of (trace w)) (k a)) →
  ∀ w, renders_of (trace (world_of (js_bind m k w))) = renders_of (trace w) ++ rs.
Proof.
  intros Hm Hk w. unfold js_bind. specialize (Hm w).
  destruct (m w) as [a w'|e w']; simpl in *; [|exact Hm].
  rewrite (Hk a w'). exact Hm.
Qed.

Lemma dry_run_pass_renders render logging renderNumber w :
  renders_of (trace (world_of (dry_run_pass render logging renderNumber w)))
  = renders_of (trace w) ++ [true].
Proof.
  unfold dry_run_pass. rewrite js_bind_modify.
  rewrite <- (log_if_renders logging (LogRunningPass renderNumber) w).
  apply js_bind_renders; [intros; apply call_render_renders | intros _].
  apply js_frame_bind; [apply first_queue_length_frame | intros n].
  apply js_frame_bind; [|intros; apply js_frame_ret].
  apply js_frame_modify. intros w'. apply log_if_renders.
Qed.

Lemma final_render_renders render logging renderNumber max w :
  renders_of (trace (world_of (final_render render logging renderNumber max w)))
  = renders_of (trace w) ++ [false].
Proof.
  unfold final_render. rewrite !js_bind_modify.
  set (w1 := cleanQueues None _).
  assert (Hw1 : renders_of (trace w1) = renders_of (trace w)).
  { subst w1. simpl. apply log_if_renders. }
  rewrite <- Hw1.
  apply (js_bind_renders (call_render render false)); [intros; apply call_render_renders|].
  intros out.
  repeat (apply js_frame_bind;
          [apply js_frame_modify; intros w';
           first [apply log_if_renders | reflexivity]
          | intros _]).
  apply js_frame_ret.
Qed.

Lemma incomplete_render_renders render logging max total w :
  renders_of (trace (world_of (incomplete_render render logging max total w)))
  = renders_of (trace w) ++ [false].
Proof.
  unfold incomplete_render.
  apply js_bind_renders; [intros; apply call_render_renders | intros out].
  apply js_frame_bind; [apply first_queue_length_frame | intros n].
  repeat (apply js_frame_bind;
          [apply js_frame_modify; intros w';
           first [apply log_if_renders | reflexivity]
          | intros _]).
  apply js_frame_ret.
Qed.

(** Rendering on behalf of the coordinator calls no frontload function. *)
Lemma dry_run_pass_frame {X} (f : World → X) render logging renderNumber :
  ignores_queues f → ignores_logs f → ignores_render f → ignores_store f →
  js_frame f (dry_run_pass render logging renderNumber).
Proof.
  intros Hq Hl Hr Hs. unfold dry_run_pass.
  apply js_frame_bind;
    [apply js_frame_modify; intros; apply (ignores_logs_log_if f), Hl | intros _].
  apply js_frame_bind; [apply call_render_frame; assumption | intros _].
  apply js_frame_bind; [apply first_queue_length_frame | intros n].
  apply js_frame_bind; [|intros; apply js_frame_ret].
  apply js_frame_modify; intros; apply (ignores_logs_log_if f), Hl.
Qed.

Lemma final_render_frame {X} (f : World → X) render logging renderNumber max :
  ignores_queues f → ignores_logs f → ignores_render f → ignores_store f →
  js_frame f (final_render render logging renderNumber max).
Proof.
  intros Hq Hl Hr Hs. unfold final_render.
  apply js_frame_bind;
    [apply js_frame_modify; intros; apply (ignores_logs_log_if f), Hl | intros _].
  apply js_frame_bind; [apply js_frame_modify; intros; apply Hq | intros _].
  apply js_frame_bind; [apply call_render_frame; assumption | intros out].
  apply js_frame_bind;
    [apply js_frame_modify; intros; apply (ignores_logs_log_if f), Hl | intros _].
  apply js_frame_bind;
    [apply js_frame_modify; intros; apply (ignores_logs_log_if f), Hl | intros _].
  apply js_frame_bind; [apply js_frame_modify; intros; apply Hq | intros _].
  apply js_frame_ret.
Qed.

Lemma incomplete_render_frame {X} (f : World → X) render logging max total :
  ignores_queues f → ignores_logs f → ignores_render f → ignores_store f →
  js_frame f (incomplete_render render logging max total).
Proof.
  intros Hq Hl Hr Hs. unfold incomplete_render.
  apply js_frame_bind; [apply call_render_frame; assumption | intros out].
  apply js_frame_bind; [apply first_queue_length_frame | intros n].
  apply js_frame_bind;
    [apply js_frame_modify; intros; apply (ignores_logs_log_if f), Hl | intros _].
  apply js_frame_bind;
    [apply js_frame_modify; intros; apply (ignores_logs_log_if f), Hl | intros _].
  apply js_frame_bind; [apply js_frame_modify; intros; apply Hq | intros _].
  apply js_frame_ret.
Qed.

Lemma worker_unfold fuel render options renderNumber frontloadsInLastRender w :
  frontloadServerRenderWorker (S fuel) render options renderNumber frontloadsInLastRender w
  = let logging := negb production && truthy (withLogging options) in
    let max := maxNestedFrontloadComponents options in
    match dry_run_pass render logging renderNumber w with
    | Throw e w1 => (Threw e, w1)
    | Ok totalFrontloadsInThisRender w1 =>
        let newFrontloadsInThisRender :=
          (totalFrontloadsInThisRender - frontloadsInLastRender)%Z in
        if (newFrontloadsInThisRender =? 0)%Z then
          match final_render render logging renderNumber max w1 with
          | Throw e w2 => (Threw e, w2)
          | Ok finalRenderOutput w2 => (Resolved finalRenderOutput, w2)
          end
        else
          let startFlushAt := clock w1 in
          let w1' := log_if logging (LogToRun newFrontloadsInThisRender renderNumber) w1 in
          match flushQueues None no_flush_options w1' with
          | Throw e w2 => (Threw e, w2)
          | Ok None w2 => (NeverSettles, w2)
          | Ok (Some (t, Rejected reason)) w2 => (RejectedWith (ReasonVal reason), await t w2)
          | Ok (Some (t, Fulfilled _)) w2 =>
              let w3 := await t w2 in
              let w3' := log_if logging
                           (LogRan renderNumber newFrontloadsInThisRender
                              (clock w3 - startFlushAt)) w3 in
              if z_option_eqb renderNumber max then
                match incomplete_render render logging max totalFrontloadsInThisRender w3' with
                | Throw e w4 => (RejectedWith (ReasonError e), w4)
                | Ok incompleteRenderOutput w4 => (Resolved incompleteRenderOutput, w4)
                end
              else
                match frontloadServerRenderWorker fuel render options
                        (renderNumber + 1)%Z
                        (frontloadsInLastRender + newFrontloadsInThisRender)%Z w3' with
                | (Threw e, w4) => (RejectedWith (ReasonError e), w4)
                | r => r
                end
          end
    end.
Proof. reflexivity. Qed.

End CoordinatorFacts.

Section WorkerFacts.

Context `{Host}.

Lemma flushQueues_renders index flushOptions w :
  renders_of (trace (world_of (flushQueues index flushOptions w))) = renders_of (trace w).
Proof. apply (flushQueues_frame (λ w, renders_of (trace w))); apply renders_ignore. Qed.

(** The renderer calls of a run of the worker: some dry runs, then at most
    one final render; with a budget, no more dry runs than the budget
    leaves, and that much fuel is enough. *)
Lemma worker_shape fuel render options renderNumber frontloadsInLastRender w :
  let r := frontloadServerRenderWorker fuel render options renderNumber
             frontloadsInLastRender w in
  ∃ dry final,
    renders_of (trace (snd r)) = renders_of (trace w) ++ replicate dry true ++ final
    ∧ (final = [] ∨ final = [false])
    ∧ dry ≤ fuel
    ∧ (0 < fuel → 1 ≤ dry)
    ∧ ∀ m, maxNestedFrontloadComponents options = Some m → (renderNumber ≤ m)%Z →
           dry ≤ Z.to_nat (m - renderNumber) + 1
           ∧ (Z.to_nat (m - renderNumber) < fuel → fst r ≠ OutOfFuel).
Proof.
  revert renderNumber frontloadsInLastRender w.
  induction fuel as [|fuel IH]; intros renderNumber lastCount w.
  - exists 0, []. simpl. rewrite app_nil_r.
    repeat split; auto; try lia.
  - rewrite worker_unfold. cbv zeta.
    set (logging := negb production && truthy (withLogging options)).
    pose proof (dry_run_pass_renders render logging renderNumber w) as Hdry.
    (* every path below starts with the one dry run of this pass *)
    assert (Hone : ∀ (c : Completion) w' final,
               c ≠ OutOfFuel →
               renders_of (trace w') = renders_of (trace w) ++ [true] ++ final →
               (final = [] ∨ final = [false]) →
               ∃ dry final',
                 renders_of (trace (snd (c, w')))
                 = renders_of (trace w) ++ replicate dry true ++ final'
                 ∧ (final' = [] ∨ final' = [false])
                 ∧ dry ≤ S fuel
                 ∧ (0 < S fuel → 1 ≤ dry)
                 ∧ ∀ m, maxNestedFrontloadComponents options = Some m →
                        (renderNumber ≤ m)%Z →
                        dry ≤ Z.to_nat (m - renderNumber) + 1
                        ∧ (Z.to_nat (m - renderNumber) < S fuel → fst (c, w') ≠ OutOfFuel)).
    { intros c w' final Hc Hr Hfinal. exists 1, final. simpl.
      repeat split; auto; try lia. }
    destruct (dry_run_pass render logging renderNumber w) as [total w1|e w1]; simpl in Hdry.
    2: { apply (Hone _ _ []); [discriminate | rewrite Hdry; reflexivity | auto]. }
    destruct (total - lastCount =? 0)%Z eqn:Enew.
    { pose proof (final_render_renders render logging renderNumber
                    (maxNestedFrontloadComponents options) w1) as Hfin.
      destruct (final_render _ _ _ _ w1) as [out w2|e w2]; simpl in Hfin;
        (apply (Hone _ _ [false]);
         [discriminate | rewrite Hfin, Hdry, <- app_assoc; reflexivity | auto]). }
    set (w1' := log_if logging (LogToRun (total - lastCount) renderNumber) w1).
    assert (Hw1' : renders_of (trace w1') = renders_of (trace w) ++ [true]).
    { subst w1'. rewrite log_if_renders. exact Hdry. }
    pose proof (flushQueues_renders None no_flush_options w1') as Hflush.
    destruct (flushQueues None no_flush_options w1') as [p w2|e w2]; simpl in Hflush.
    2: { apply (Hone _ _ []); [discriminate | rewrite Hflush, Hw1'; reflexivity | auto]. }
    destruct p as [[t [vs|reason]]|].
    3: { apply (Hone _ _ []); [discriminate | rewrite Hflush, Hw1'; reflexivity | auto]. }
    2: { apply (Hone _ _ []);
           [discriminate | rewrite await_trace, Hflush, Hw1'; reflexivity | auto]. }
    set (w3' := log_if logging _ (await t w2)).
    assert (Hw3' : renders_of (trace w3') = renders_of (trace w) ++ [true]).
    { subst w3'. rewrite log_if_renders, await_trace, Hflush. exact Hw1'. }
    destruct (z_option_eqb renderNumber (maxNestedFrontloadComponents options)) eqn:Emax.
    { pose proof (incomplete_render_renders render logging
                    (maxNestedFrontloadComponents options) total w3') as Hinc.
      destruct (incomplete_render _ _ _ _ w3') as [out w4|e w4]; simpl in Hinc;
        (apply (Hone _ _ [false]);
         [discriminate | rewrite Hinc, Hw3', <- app_assoc; reflexivity | auto]). }
    destruct (IH (renderNumber + 1)%Z (lastCount + (total - lastCount))%Z w3')
      as (dry & final & Hr & Hfinal & Hfuel & Hpos & Hmax).
    destruct (frontloadServerRenderWorker fuel render options (renderNumber + 1)%Z
                (lastCount + (total - lastCount))%Z w3') as [c w4].
    simpl in Hr, Hmax.
    assert (Hgoal : ∀ c' : Completion,
               (c ≠ OutOfFuel → c' ≠ OutOfFuel) →
               ∃ dry' final',
                 renders_of (trace (snd (c', w4)))
                 = renders_of (trace w) ++ replicate dry' true ++ final'
                 ∧ (final' = [] ∨ final' = [false])
                 ∧ dry' ≤ S fuel
                 ∧ (0 < S fuel → 1 ≤ dry')
                 ∧ ∀ m, maxNestedFrontloadComponents options = Some m →
                        (renderNumber ≤ m)%Z →
                        dry' ≤ Z.to_nat (m - renderNumber) + 1
                        ∧ (Z.to_nat (m - renderNumber) < S fuel → fst (c', w4) ≠ OutOfFuel)).
    { intros c' Hc. exists (S dry), final. simpl. rewrite Hr, Hw3'.
      split; [rewrite <- app_assoc; reflexivity|].
      split; [exact Hfinal|]. split; [lia|]. split; [lia|].
      intros m Hm Hle.
      assert (renderNumber ≠ m).
      { intros ->. unfold z_option_eqb in Emax. rewrite Hm, Z.eqb_refl in Emax.
        discriminate. }
      destruct (Hmax m Hm ltac:(lia)) as [Hdry' Hfuel'].
      split; [lia|]. intros Hlt. apply Hc, Hfuel'. lia. }
    destruct c; apply Hgoal; auto; discriminate.
Qed.


End WorkerFacts.

(** ** Well-formed applications: the coordinator resolves *)

Section Resolution.

Context `{Host}.

Import JsArray JsArrayFacts.

Lemma no_holes_get (qs : list (option (list Request))) i :
  no_holes qs → i < length qs → is_Some (get qs i).
Proof.
  intros Hholes Hlt. unfold get.
  destruct (lookup_lt_is_Some_2 qs i Hlt) as [slot Hslot]. rewrite Hslot.
  unfold no_holes in Hholes. rewrite Forall_forall in Hholes.
  destruct (Hholes slot (list_elem_of_lookup_2 _ _ _ Hslot)) as [q ->]. eauto.
Qed.

Lemma no_holes_set (qs : list (option (list Request))) i q :
  no_holes qs → i < length qs → no_holes (set i q qs).
Proof.
  intros Hholes Hlt. rewrite set_in_range by assumption.
  apply Forall_insert; [exact Hholes | eauto].
Qed.

Lemma slots_settle_set (qs : list (option (list Request))) i q :
  slots_settle qs → Forall (λ r, fetch_settles (fn r tt)) q → slots_settle (set i q qs).
Proof.
  intros Hslots Hq j q' Hget.
  destruct (decide (i = j)) as [->|Hne].
  - rewrite get_set_eq in Hget. inversion Hget; subst. exact Hq.
  - rewrite get_set_ne in Hget by assumption. eapply Hslots; eauto.
Qed.

Lemma healthy_log_if cond m w : healthy w → healthy (log_if cond m w).
Proof. destruct cond; auto. Qed.

Lemma healthy_empty w : FRONTLOAD_QUEUES w = [] → healthy w.
Proof.
  intros Hq. unfold healthy. rewrite Hq. split; [constructor|].
  intros i q Hget. unfold get in Hget. rewrite lookup_nil in Hget. discriminate.
Qed.

Lemma healthy_constructor p w : healthy w → healthy (snd (Frontload_constructor p w)).
Proof.
  intros [Hholes Hslots]. split; simpl.
  - apply Forall_app. split; [exact Hholes | repeat constructor; eauto].
  - intros i q Hget.
    destruct (decide (i < length (FRONTLOAD_QUEUES w))) as [Hlt|Hge].
    + rewrite get_app_old in Hget by assumption. eapply Hslots; eauto.
    + pose proof (get_Some_lt _ _ _ Hget) as Hlen. rewrite length_app in Hlen.
      simpl in Hlen. assert (i = length (FRONTLOAD_QUEUES w)) as -> by lia.
      rewrite get_app_new in Hget. inversion Hget. constructor.
Qed.

(** A push on the server by a provider that has its slot. *)
Lemma pushFrontload_server_healthy this frontload nodeOptions phase childProps logMessage w :
  isServer this = true → has_slot w this →
  (∀ info, fetch_settles (frontload childProps info)) →
  ∃ w',
    pushFrontload this frontload nodeOptions phase childProps logMessage w = Ok tt w'
    ∧ (∀ other, has_slot w other → has_slot w' other)
    ∧ (healthy w → healthy w')
    ∧ length (FRONTLOAD_QUEUES w') = length (FRONTLOAD_QUEUES w).
Proof.
  intros Hserver [q Hq] Hsettles. unfold pushFrontload. rewrite Hserver, Hq. simpl.
  destruct (_ || _ || _).
  - eexists. split; [reflexivity | auto].
  - eexists. split; [reflexivity|].
    pose proof (get_Some_lt _ _ _ Hq) as Hlt.
    split; [intros other Hother; apply has_slot_log_if, has_slot_set, Hother|].
    split.
    + intros [Hholes Hslots]. apply healthy_log_if. split; simpl.
      * apply no_holes_set; assumption.
      * apply slots_settle_set; [exact Hslots|].
        constructor; [apply Hsettles | eapply Hslots; eauto].
    + rewrite (ignores_logs_log_if FRONTLOAD_QUEUES) by apply queues_ignore.
      simpl. apply set_length_lt. exact Hlt.
Qed.

Lemma fire_hooks_connected_healthy context frontload nodeOptions component componentProps w :
  has_slot w context →
  (∀ info, fetch_settles (frontload componentProps info)) →
  ∃ w',
    fire_hooks (connected_hooks context)
      (connected_pushFrontload context frontload nodeOptions component componentProps) w
    = Ok tt w'
    ∧ (∀ other, has_slot w other → has_slot w' other)
    ∧ (healthy w → healthy w')
    ∧ length (FRONTLOAD_QUEUES w') = length (FRONTLOAD_QUEUES w).
Proof.
  intros Hslot Hsettles. unfold connected_hooks.
  destruct (isServer context) eqn:Hserver; simpl.
  - unfold connected_pushFrontload, js_bind.
    destruct (pushFrontload_server_healthy context frontload nodeOptions MOUNT
                componentProps
                (if negb production then None
                 else Some ("for component: ["
                            +:+ (if truthy_str component then default "" component
                                 else "anonymous")
                            +:+ "] on [" +:+ "mount" +:+ "]")) w Hserver Hslot Hsettles)
      as (w' & Hpush & Hkeep & Hhealthy & Hlen).
    rewrite Hpush. simpl. eauto.
  - eexists. split; [reflexivity | auto].
Qed.

Lemma run_events_healthy events providers w :
  scoped (length providers) events = true →
  settling_events events →
  Forall (has_slot w) providers →
  ∃ w',
    run_events events providers w = Ok tt w'
    ∧ (healthy w → healthy w')
    ∧ length (FRONTLOAD_QUEUES w') = length (FRONTLOAD_QUEUES w) + mounts events.
Proof.
  revert providers w.
  induction events as [|[p|k frontload nodeOptions component componentProps] rest IH];
    intros providers w Hscoped Hsettling Hslots; simpl in *.
  - eexists. split; [reflexivity|]. split; [auto | lia].
  - unfold js_bind. simpl. inversion Hsettling as [|? ? _ Hrest]; subst.
    destruct (IH (providers ++ [fst (Frontload_constructor p w)])
                (snd (Frontload_constructor p w))) as (w' & Hrun & Hhealthy & Hlen).
    + rewrite length_app. simpl. rewrite Nat.add_1_r. exact Hscoped.
    + exact Hrest.
    + apply Forall_app. split.
      * eapply Forall_impl; [exact Hslots|]. intros this Hthis.
        apply (has_slot_constructor p w this Hthis).
      * constructor; [|constructor].
        unfold has_slot. simpl. rewrite Nat.sub_0_r, get_app_new. eauto.
    + simpl in Hrun, Hlen. exists w'. split; [exact Hrun|]. split.
      * intros Hw. apply Hhealthy. apply (healthy_constructor p w Hw).
      * rewrite Hlen, length_app. simpl. lia.
  - apply andb_true_iff in Hscoped as [Hk Hscoped]. apply Nat.ltb_lt in Hk.
    inversion Hsettling as [|? ? Hfetch Hrest]; subst.
    destruct (lookup_lt_is_Some_2 providers k Hk) as [context Hctx]. rewrite Hctx.
    unfold js_bind.
    destruct (fire_hooks_connected_healthy context frontload nodeOptions component
                componentProps w) as (w1 & Hfire & Hkeep & Hhealthy1 & Hlen1).
    { rewrite Forall_forall in Hslots. apply Hslots. eapply list_elem_of_lookup_2; eauto. }
    { exact Hfetch. }
    rewrite Hfire.
    destruct (IH providers w1 Hscoped Hrest) as (w' & Hrun & Hhealthy & Hlen).
    { eapply Forall_impl; [exact Hslots | exact Hkeep]. }
    exists w'. split; [exact Hrun|]. split; [auto | lia].
Qed.

Lemma call_render_healthy render dryRun w :
  well_formed render → healthy w →
  ∃ w',
    call_render render dryRun w = Ok (r_output (render dryRun (store w))) w'
    ∧ healthy w'
    ∧ is_Some (get (FRONTLOAD_QUEUES w') 0).
Proof.
  intros Hwf Hw. destruct (Hwf dryRun (store w)) as (Hscoped & Hmounts & Hsettling).
  unfold call_render, js_bind, js_modify, js_get. simpl.
  destruct (run_events_healthy (r_events (render dryRun (store w))) []
              (emit (EvRender dryRun) w) Hscoped Hsettling (List.Forall_nil _))
    as (w' & Hrun & Hhealthy & Hlen).
  simpl in Hrun. rewrite Hrun. simpl. eexists. split; [reflexivity|].
  specialize (Hhealthy Hw).
  split; [exact Hhealthy|]. simpl.
  apply no_holes_get; [apply Hhealthy | lia].
Qed.

(** The flush of a healthy table fulfils. *)
Lemma flushQueues_all_healthy flushOptions w :
  healthy w →
  ∃ t vs w',
    flushQueues None flushOptions w = Ok (Some (t, Fulfilled vs)) w'
    ∧ FRONTLOAD_QUEUES w' = [].
Proof.
  intros [Hholes Hslots].
  destruct (flushQueues_all_spec flushOptions w Hholes) as (w' & Hflush & Hq & _).
  rewrite Hflush.
  set (ps := map _ (omap id (FRONTLOAD_QUEUES w))).
  assert (Hall : Forall (λ p : promise (list Val), ∃ t v, p = Some (t, Fulfilled v)) ps).
  { subst ps. rewrite Forall_map. rewrite Forall_forall. intros q Hin.
    rewrite list_elem_of_omap in Hin. destruct Hin as (slot & Hslot & Hid).
    simpl in Hid. subst slot.
    apply list_elem_of_lookup_1 in Hslot as [i Hi].
    assert (Hget : get (FRONTLOAD_QUEUES w) i = Some q) by (unfold get; rewrite Hi; reflexivity).
    specialize (Hslots i q Hget).
    assert (Hsome : is_Some (waitForAllToComplete (clock w)
                               (map (λ r, returned_promise (clock w) (fn r tt)) q))).
    { apply waitForAllToComplete_settles. rewrite Forall_map.
      eapply Forall_impl; [exact Hslots|]. intros r [[d o] Hr]. simpl.
      unfold returned_promise. rewrite Hr. eauto. }
    destruct Hsome as [[t s] Hs]. rewrite Hs.
    destruct (waitForAllToComplete_fulfils _ _ _ _ Hs) as (vs & -> & _). eauto. }
  assert (Hnorej : first_rejection ps = None).
  { apply first_rejection_None_iff. eapply Forall_impl; [exact Hall|].
    intros p (t & v & ->) t' e. discriminate. }
  unfold Promise_all. rewrite Hnorej.
  destruct (all_fulfilled (clock w) ps) as [[t vs]|] eqn:Efulfilled.
  - exists t, vs, w'. split; [reflexivity | exact Hq].
  - exfalso. apply all_fulfilled_None in Efulfilled.
    rewrite List.Exists_exists in Efulfilled. destruct Efulfilled as (p & Hin & Hp).
    rewrite List.Forall_forall in Hall. destruct (Hall p Hin) as (t & v & ->).
    exact (Hp t v eq_refl).
Qed.

Lemma dry_run_pass_healthy render logging renderNumber w :
  well_formed render → healthy w →
  ∃ total w1, dry_run_pass render logging renderNumber w = Ok total w1 ∧ healthy w1.
Proof.
  intros Hwf Hw. unfold dry_run_pass. rewrite js_bind_modify.
  destruct (call_render_healthy render true
              (log_if logging (LogRunningPass renderNumber) w) Hwf
              (healthy_log_if _ _ _ Hw)) as (w1 & Hcall & Hw1 & [q Hq]).
  unfold js_bind at 1. rewrite Hcall.
  unfold js_bind at 1, first_queue_length. rewrite Hq.
  unfold js_bind, js_modify, js_ret. eexists _, _. split; [reflexivity|].
  apply healthy_log_if, Hw1.
Qed.

Lemma final_render_healthy render logging renderNumber max w :
  well_formed render →
  ∃ out w', final_render render logging renderNumber max w = Ok out w'.
Proof.
  intros Hwf. unfold final_render. rewrite !js_bind_modify.
  assert (Hempty : healthy (cleanQueues None
                             (log_if logging (LogNoFrontloadsRemain renderNumber max) w))).
  { apply healthy_empty. reflexivity. }
  destruct (call_render_healthy render false
              (cleanQueues None (log_if logging (LogNoFrontloadsRemain renderNumber max) w))
              Hwf Hempty) as (w1 & Hcall & _).
  unfold js_bind at 1. rewrite Hcall. eexists _, _. reflexivity.
Qed.

Lemma incomplete_render_healthy render logging max total w :
  well_formed render → healthy w →
  ∃ out w', incomplete_render render logging max total w = Ok out w'.
Proof.
  intros Hwf Hw. unfold incomplete_render.
  destruct (call_render_healthy render false w Hwf Hw) as (w1 & Hcall & _ & [q Hq]).
  unfold js_bind at 1. rewrite Hcall.
  unfold js_bind at 1, first_queue_length. rewrite Hq. eexists _, _. reflexivity.
Qed.

(** For a well-formed application the worker resolves, within the fuel the
    budget asks for. *)
Lemma worker_resolves fuel render options renderNumber frontloadsInLastRender w m :
  well_formed render → healthy w →
  maxNestedFrontloadComponents options = Some m →
  (renderNumber ≤ m)%Z →
  Z.to_nat (m - renderNumber) < fuel →
  ∃ out,
    fst (frontloadServerRenderWorker fuel render options renderNumber
           frontloadsInLastRender w) = Resolved out.
Proof.
  intros Hwf Hw Hm. revert renderNumber frontloadsInLastRender w Hw.
  induction fuel as [|fuel IH]; intros renderNumber lastCount w Hw Hle Hfuel; [lia|].
  rewrite worker_unfold. cbv zeta.
  destruct (dry_run_pass_healthy render (negb production && truthy (withLogging options))
              renderNumber w Hwf Hw) as (total & w1 & Hdry & Hw1).
  rewrite Hdry.
  destruct (total - lastCount =? 0)%Z.
  { destruct (final_render_healthy render (negb production && truthy (withLogging options))
                renderNumber (maxNestedFrontloadComponents options) w1 Hwf)
      as (out & w2 & Hfinal).
    rewrite Hfinal. eauto. }
  destruct (flushQueues_all_healthy no_flush_options
              (log_if (negb production && truthy (withLogging options))
                 (LogToRun (total - lastCount) renderNumber) w1)
              (healthy_log_if _ _ _ Hw1)) as (t & vs & w2 & Hflush & Hq2).
  rewrite Hflush.
  set (w3 := log_if _ _ (await t w2)).
  assert (Hw3 : healthy w3).
  { subst w3. apply healthy_log_if, healthy_empty. exact Hq2. }
  destruct (z_option_eqb renderNumber (maxNestedFrontloadComponents options)) eqn:Emax.
  { destruct (incomplete_render_healthy render
                (negb production && truthy (withLogging options))
                (maxNestedFrontloadComponents options) total w3 Hwf Hw3)
      as (out & w4 & Hinc).
    rewrite Hinc. eauto. }
  assert (renderNumber ≠ m).
  { intros ->. unfold z_option_eqb in Emax. rewrite Hm, Z.eqb_refl in Emax. discriminate. }
  destruct (IH (renderNumber + 1)%Z (lastCount + (total - lastCount))%Z w3 Hw3)
    as (out & Hout); [lia | lia |].
  destruct (frontloadServerRenderWorker fuel render options _ _ w3) as [c w4].
  simpl in Hout. subst c. eauto.
Qed.

End Resolution.

(** * Main results *)

Section RegistryClaims.

Context `{Host}.

Import JsArray JsArrayFacts.

Lemma pushFrontload_length this frontload nodeOptions phase childProps logMessage w :
  length (FRONTLOAD_QUEUES w)
  ≤ length (FRONTLOAD_QUEUES
              (world_of (pushFrontload this frontload nodeOptions phase childProps
                           logMessage w))).
Proof.
  unfold pushFrontload.
  destruct (_ || _ || _); [reflexivity|].
  destruct (isServer this).
  - destruct (get _ _); [|reflexivity]. simpl.
    rewrite (ignores_logs_log_if FRONTLOAD_QUEUES) by apply queues_ignore.
    simpl. apply set_length_mono.
  - destruct (_ || _); simpl;
      rewrite (ignores_logs_log_if FRONTLOAD_QUEUES) by apply queues_ignore; reflexivity.
Qed.

Lemma flushQueue_length index flushOptions w :
  length (FRONTLOAD_QUEUES w)
  ≤ length (FRONTLOAD_QUEUES (world_of (flushQueue index flushOptions w))).
Proof.
  unfold flushQueue. destruct (get _ _) as [queue|]; [|reflexivity].
  destruct (flush_loop_spec flushOptions queue w) as (_ & Hq & _).
  destruct (flush_loop flushOptions queue w) as [ps w1]. simpl in *.
  rewrite Hq. apply set_length_mono.
Qed.

Lemma StronglySorted_lt_NoDup (l : list nat) : StronglySorted lt l → NoDup l.
Proof.
  induction 1 as [|x l Hsorted IH Hall]; [constructor|].
  apply NoDup_cons. split; [|exact IH].
  intros Hin. rewrite Forall_forall in Hall. specialize (Hall x Hin). lia.
Qed.

Lemma run_ops_sorted ops w :
  forallb (λ op, negb (resets_all op)) ops = true →
  StronglySorted lt (fst (run_ops ops w))
  ∧ Forall (λ i, length (FRONTLOAD_QUEUES w) ≤ i) (fst (run_ops ops w)).
Proof.
  revert w. induction ops as [|op rest IH]; intros w Hops; simpl in *.
  - split; constructor.
  - apply andb_true_iff in Hops as [Hop Hrest].
    assert (Hlater : ∀ w', length (FRONTLOAD_QUEUES w) ≤ length (FRONTLOAD_QUEUES w') →
               StronglySorted lt (fst (run_ops rest w'))
               ∧ Forall (λ i, length (FRONTLOAD_QUEUES w) ≤ i) (fst (run_ops rest w'))).
    { intros w' Hle. destruct (IH w' Hrest) as [Hsorted Hall]. split; [exact Hsorted|].
      eapply Forall_impl; [exact Hall|]. simpl. intros i Hi. lia. }
    destruct op as [p|index|this frontload nodeOptions phase childProps logMessage
                    |index flushOptions|flushOptions]; simpl in Hop.
    + destruct (IH (set_queues (FRONTLOAD_QUEUES w ++ [Some []]) w) Hrest) as [Hsorted Hall].
      simpl in *.
      destruct (run_ops rest (set_queues (FRONTLOAD_QUEUES w ++ [Some []]) w))
        as [indices w2]. simpl in *.
      rewrite length_app in Hall. simpl in Hall. rewrite Nat.sub_0_r.
      split.
      * constructor; [exact Hsorted|].
        eapply Forall_impl; [exact Hall|]. simpl. intros i Hi. lia.
      * constructor; [lia|].
        eapply Forall_impl; [exact Hall|]. simpl. intros i Hi. lia.
    + destruct index as [i|]; [|discriminate].
      apply Hlater. simpl. apply set_length_mono.
    + apply Hlater. apply pushFrontload_length.
    + apply Hlater. apply flushQueue_length.
    + discriminate.
Qed.

(** C9, as amended: between two replacements of the whole table, every
    allocation returns an index above all those returned since the last
    replacement, so none is returned twice; the first allocation after
    [cleanQueues()] returns index 0 again. *)
Theorem C9_indices_increase_between_resets
    (ops : list RegistryOp) (w : World) (p : FrontloadProps) :
  forallb (λ op, negb (resets_all op)) ops = true →
  StronglySorted lt (fst (run_ops ops w))
  ∧ NoDup (fst (run_ops ops w))
  ∧ Forall (λ i, length (FRONTLOAD_QUEUES w) ≤ i) (fst (run_ops ops w))
  ∧ queueIndex (fst (Frontload_constructor p w)) = length (FRONTLOAD_QUEUES w)
  ∧ queueIndex (fst (Frontload_constructor p (cleanQueues None (snd (run_ops ops w))))) = 0.
Proof.
  intros Hops. destruct (run_ops_sorted ops w Hops) as [Hsorted Hall].
  split; [exact Hsorted|]. split; [apply StronglySorted_lt_NoDup, Hsorted|].
  split; [exact Hall|]. split.
  - apply Frontload_constructor_spec.
  - rewrite (proj1 (Frontload_constructor_spec p _)). reflexivity.
Qed.

End RegistryClaims.

Section PushClaims.

Context `{Host}.

Import JsArray JsArrayFacts.

(** Reads the registry, the calls, the fetches in flight and the store
    through the log entries a push may add. *)
Ltac past_logs :=
  rewrite ?(ignores_logs_log_if FRONTLOAD_QUEUES) by apply queues_ignore;
  rewrite ?(ignores_logs_log_if (λ w, calls_of (trace w))) by apply calls_ignore;
  rewrite ?(ignores_logs_log_if inflight) by apply inflight_ignore;
  rewrite ?(ignores_logs_log_if store) by apply store_ignore.

(** The test of the first [if] of [pushFrontload], in the vocabulary of the
    statements. *)
Lemma push_gate this nodeOptions phase :
  (isServer this
   && (truthy (props_noServerRender (props this)) || truthy (noServerRender nodeOptions)))
  || (phase_eqb phase MOUNT && is_false (onMount nodeOptions))
  || (phase_eqb phase UPDATE && negb (truthy (onUpdate nodeOptions)))
  = (isServer this && effectiveNoServerRender this nodeOptions)
    || lifecycle_skips nodeOptions phase.
Proof.
  unfold effectiveNoServerRender, lifecycle_skips, onMount_or_default, onUpdate_or_default.
  destruct phase, (onMount nodeOptions) as [[]|], (onUpdate nodeOptions) as [[]|];
    simpl; rewrite ?orb_false_r, ?orb_true_r; reflexivity.
Qed.

Lemma server_push_skips this frontload nodeOptions phase childProps logMessage w :
  isServer this = true →
  effectiveNoServerRender this nodeOptions || lifecycle_skips nodeOptions phase = true →
  pushFrontload this frontload nodeOptions phase childProps logMessage w = Ok tt w.
Proof.
  intros Hserver Hskip.
  pose proof (push_gate this nodeOptions phase) as Hgate. rewrite Hserver in Hgate.
  simpl in Hgate. unfold pushFrontload. rewrite Hserver. simpl. rewrite Hgate, Hskip.
  reflexivity.
Qed.

Lemma server_push_enqueues this frontload nodeOptions phase childProps logMessage w q :
  isServer this = true →
  effectiveNoServerRender this nodeOptions || lifecycle_skips nodeOptions phase = false →
  get (FRONTLOAD_QUEUES w) (queueIndex this) = Some q →
  ∃ w',
    pushFrontload this frontload nodeOptions phase childProps logMessage w = Ok tt w'
    ∧ get (FRONTLOAD_QUEUES w') (queueIndex this)
      = Some (entry_of frontload nodeOptions phase childProps :: q)
    ∧ (∀ j, j ≠ queueIndex this →
            get (FRONTLOAD_QUEUES w') j = get (FRONTLOAD_QUEUES w) j)
    ∧ length (FRONTLOAD_QUEUES w') = length (FRONTLOAD_QUEUES w)
    ∧ calls_of (trace w') = calls_of (trace w)
    ∧ inflight w' = inflight w
    ∧ store w' = store w.
Proof.
  intros Hserver Hskip Hq.
  pose proof (push_gate this nodeOptions phase) as Hgate. rewrite Hserver in Hgate.
  simpl in Hgate. unfold pushFrontload. rewrite Hserver, Hq. simpl. rewrite Hgate, Hskip.
  eexists. split; [reflexivity|].
  past_logs.
  simpl. split; [apply get_set_eq|].
  split; [intros j Hj; apply get_set_ne; congruence|].
  split; [apply set_length_lt; eapply get_Some_lt; eauto|].
  repeat split.
Qed.

(** C2: on the server a push is skipped when [noServerRender] is set on
    the provider or on the node, on a mount with [onMount] false and on an
    update with [onUpdate] false; otherwise the request is put into the
    provider's slot, and no frontload function is called. *)
Theorem C2_server_push_skips_or_enqueues
    (this : Frontload) (frontload : FrontloadFn) (nodeOptions : NodeOptions)
    (phase : LifecyclePhase) (childProps : Props) (logMessage : option string)
    (w : World) :
  isServer this = true →
  (effectiveNoServerRender this nodeOptions || lifecycle_skips nodeOptions phase = true →
   pushFrontload this frontload nodeOptions phase childProps logMessage w = Ok tt w)
  ∧ (effectiveNoServerRender this nodeOptions || lifecycle_skips nodeOptions phase = false →
     ∀ q, get (FRONTLOAD_QUEUES w) (queueIndex this) = Some q →
       ∃ w',
         pushFrontload this frontload nodeOptions phase childProps logMessage w = Ok tt w'
         ∧ get (FRONTLOAD_QUEUES w') (queueIndex this)
           = Some (entry_of frontload nodeOptions phase childProps :: q)
         ∧ (∀ j, j ≠ queueIndex this →
                 get (FRONTLOAD_QUEUES w') j = get (FRONTLOAD_QUEUES w) j)
         ∧ length (FRONTLOAD_QUEUES w') = length (FRONTLOAD_QUEUES w)
         ∧ calls_of (trace w') = calls_of (trace w)
         ∧ inflight w' = inflight w
         ∧ store w' = store w).
Proof.
  intros Hserver. split.
  - apply server_push_skips. exact Hserver.
  - intros Hskip q Hq. apply server_push_enqueues; assumption.
Qed.

(** C3: on the client, a push that passes the lifecycle gate does nothing
    while [noServerRender] is unset and the first client render is not
    done; otherwise it calls the frontload function at once and returns
    nothing.  [componentDidMount] of the provider sets the latch. *)
Theorem C3_client_push_waits_for_first_render
    (this : Frontload) (frontload : FrontloadFn) (nodeOptions : NodeOptions)
    (phase : LifecyclePhase) (childProps : Props) (logMessage : option string)
    (w : World) :
  isServer this = false →
  lifecycle_skips nodeOptions phase = false →
  let call := frontload childProps {| isMount := phase_eqb phase MOUNT;
                                      isUpdate := phase_eqb phase UPDATE |} in
  (effectiveNoServerRender this nodeOptions = false →
   firstClientRenderDone this = false →
   ∃ w',
     pushFrontload this frontload nodeOptions phase childProps logMessage w = Ok tt w'
     ∧ FRONTLOAD_QUEUES w' = FRONTLOAD_QUEUES w
     ∧ calls_of (trace w') = calls_of (trace w)
     ∧ inflight w' = inflight w
     ∧ store w' = store w)
  ∧ (effectiveNoServerRender this nodeOptions = true ∨ firstClientRenderDone this = true →
     ∃ w',
       pushFrontload this frontload nodeOptions phase childProps logMessage w = Ok tt w'
       ∧ FRONTLOAD_QUEUES w' = FRONTLOAD_QUEUES w
       ∧ calls_of (trace w') = calls_of (trace w) ++ [call]
       ∧ inflight w' = inflight w ++ [(returned_promise (clock w) call, call)]
       ∧ store w' = store w)
  ∧ (∀ w0,
       let mounted := fst (Frontload_componentDidMount this w0) in
       firstClientRenderDone mounted = true
       ∧ ∃ w',
           pushFrontload mounted frontload nodeOptions phase childProps logMessage w
           = Ok tt w'
           ∧ calls_of (trace w') = calls_of (trace w) ++ [call]).
Proof.
  intros Hclient Hgate call.
  assert (Hpush : ∀ this', isServer this' = false →
            pushFrontload this' frontload nodeOptions phase childProps logMessage w
            = if effectiveNoServerRender this' nodeOptions || firstClientRenderDone this'
              then Ok tt (log_if (negb production
                                  && truthy (props_withLogging (props this'))
                                  && truthy_str logMessage)
                            (LogExecuted (props_name (props this')) logMessage)
                            (snd (launch call w)))
              else Ok tt (log_if (negb production
                                  && truthy (props_withLogging (props this'))
                                  && truthy_str logMessage)
                            (LogNotExecutedOnFirstClientRender
                               (props_name (props this')) logMessage) w)).
  { intros this' Hclient'. unfold pushFrontload.
    pose proof (push_gate this' nodeOptions phase) as Hg.
    rewrite Hclient', Hgate in Hg. simpl in Hg. rewrite Hclient'. simpl. rewrite Hg.
    reflexivity. }
  split; [|split].
  - intros Hnsr Hlatch. rewrite (Hpush this Hclient), Hnsr, Hlatch. simpl.
    eexists. split; [reflexivity|].
    past_logs.
    repeat split.
  - intros Hor. rewrite (Hpush this Hclient).
    assert (Hcond : effectiveNoServerRender this nodeOptions || firstClientRenderDone this
                    = true).
    { destruct Hor as [-> | ->]; [reflexivity | apply orb_true_r]. }
    rewrite Hcond. eexists. split; [reflexivity|].
    past_logs.
    simpl. rewrite calls_of_app. repeat split.
  - intros w0 mounted. split; [reflexivity|].
    rewrite (Hpush mounted Hclient). subst mounted. simpl. rewrite orb_true_r.
    eexists. split; [reflexivity|].
    past_logs. simpl. rewrite calls_of_app. reflexivity.
Qed.

End PushClaims.

Section FlushClaims.

Context `{Host}.

Import JsArray JsArrayFacts.


(** C4: the flush of a slot leaves the slot empty when it returns its
    promise, and that promise is made of the requests found in the slot
    only.  A request pushed afterwards is alone in the slot, and the next
    flush executes it, once, and nothing else. *)
Theorem C4_flush_empties_slot_before_waiting
    (index : nat) (flushOptions : FlushOptions) (w : World) (queue : list Request) :
  get (FRONTLOAD_QUEUES w) index = Some queue →
  let executed := List.filter (executes flushOptions) queue in
  ∃ p w',
    flushQueues (Some index) flushOptions w = Ok p w'
    ∧ get (FRONTLOAD_QUEUES w') index = Some []
    ∧ p = waitForAllToComplete (clock w)
            (map (λ r, returned_promise (clock w) (fn r tt)) executed)
    ∧ inflight w' = inflight w
                    ++ map (λ r, (returned_promise (clock w) (fn r tt), fn r tt)) executed
    ∧ ∀ this frontload nodeOptions phase childProps logMessage,
        isServer this = true → queueIndex this = index →
        effectiveNoServerRender this nodeOptions || lifecycle_skips nodeOptions phase = false →
        let entry := entry_of frontload nodeOptions phase childProps in
        ∃ w'',
          pushFrontload this frontload nodeOptions phase childProps logMessage w' = Ok tt w''
          ∧ get (FRONTLOAD_QUEUES w'') index = Some [entry]
          ∧ calls_of (trace w'') = calls_of (trace w) ++ map (λ r, fn r tt) executed
          ∧ ∃ p2 w3,
              flushQueues (Some index) no_flush_options w'' = Ok p2 w3
              ∧ calls_of (trace w3) = calls_of (trace w'') ++ [fn entry tt]
              ∧ p2 = waitForAllToComplete (clock w) [returned_promise (clock w) (fn entry tt)].
Proof.
  intros Hget executed.
  destruct (flushQueue_spec index flushOptions w queue Hget)
    as (w' & Hflush & Hq & _ & Hc & Hi & Hcalls & _).
  eexists _, w'. split; [exact Hflush|].
  assert (Hempty : get (FRONTLOAD_QUEUES w') index = Some []).
  { rewrite Hq. apply get_set_eq. }
  split; [exact Hempty|]. split; [reflexivity|]. split; [exact Hi|].
  intros this frontload nodeOptions phase childProps logMessage Hserver Hidx Hgate entry.
  rewrite <- Hidx in Hempty.
  destruct (server_push_enqueues this frontload nodeOptions phase childProps
              logMessage w' [] Hserver Hgate Hempty)
    as (w'' & Hpush & Hslot & _ & _ & Hcalls' & _ & _).
  rewrite Hidx in Hslot.
  assert (Hclock : clock w'' = clock w).
  { rewrite <- Hc.
    pose proof (pushFrontload_server_frame clock this frontload nodeOptions phase
                  childProps logMessage Hserver (proj1 clock_ignore)
                  (proj1 (proj2 clock_ignore)) w') as Hframe.
    rewrite Hpush in Hframe. exact Hframe. }
  exists w''. split; [exact Hpush|]. split; [exact Hslot|].
  split; [rewrite Hcalls', Hcalls; reflexivity|].
  destruct (flushQueue_spec index no_flush_options w'' [entry] Hslot)
    as (w3 & Hflush2 & _ & _ & _ & _ & Hcalls2 & _).
  eexists _, w3. split; [exact Hflush2|].
  split; [exact Hcalls2|]. rewrite Hclock. reflexivity.
Qed.

(** C10: the flush of the whole table calls the frontload function of
    every queued request whatever options it is given, and leaves the table
    empty; the same options given to the flush of one slot, with
    [firstClientRender] set and no [noServerRender] anywhere, execute
    nothing. *)
Theorem C10_flush_all_ignores_options (flushOptions : FlushOptions) (w : World) :
  no_holes (FRONTLOAD_QUEUES w) →
  (∃ p w',
     flushQueues None flushOptions w = Ok p w'
     ∧ calls_of (trace w')
       = calls_of (trace w) ++ map (λ r, fn r tt) (queued (FRONTLOAD_QUEUES w))
     ∧ FRONTLOAD_QUEUES w' = [])
  ∧ flushQueues None flushOptions w = flushQueues None no_flush_options w
  ∧ (truthy (firstClientRender flushOptions) = true →
     truthy (flush_noServerRender flushOptions) = false →
     ∀ index queue,
       get (FRONTLOAD_QUEUES w) index = Some queue →
       Forall (λ r, truthy (noServerRender (options r)) = false) queue →
       ∃ p w',
         flushQueues (Some index) flushOptions w = Ok p w'
         ∧ calls_of (trace w') = calls_of (trace w)).
Proof.
  intros Hholes. split; [|split].
  - destruct (flushQueues_all_spec flushOptions w Hholes)
      as (w' & Hflush & Hq & _ & _ & _ & Hcalls & _).
    eexists _, w'. split; [exact Hflush|]. split; assumption.
  - reflexivity.
  - intros Hfirst Hnsr index queue Hget Hqueue.
    destruct (flushQueue_spec index flushOptions w queue Hget)
      as (w' & Hflush & _ & _ & _ & _ & Hcalls & _).
    eexists _, w'. split; [exact Hflush|].
    rewrite Hcalls.
    assert (Hnone : List.filter (executes flushOptions) queue = []).
    { clear Hget Hflush Hcalls. induction Hqueue as [|r queue Hr _ IH]; [reflexivity|].
      simpl. unfold executes at 1. rewrite Hfirst, Hnsr, Hr. exact IH. }
    rewrite Hnone. apply app_nil_r.
Qed.

End FlushClaims.

Section CoordinatorClaims.

Context `{Host}.

Import JsArray JsArrayFacts.

(** C5: with a budget of [m ≥ 1] passes, [m] units of fuel are enough for
    the coordinator, and it calls the renderer for at most [m] dry runs
    followed by at most one final render, [m + 1] calls at most.  For a
    well-formed application it resolves with an output. *)
Theorem C5_coordinator_bounded_by_budget
    (fuel : nat) (render : Renderer) (o : ServerRenderOptions) (m : Z) (w : World) :
  maxNestedFrontloadComponents o = Some m →
  (1 ≤ m)%Z →
  Z.to_nat m ≤ fuel →
  let r := frontloadServerRender fuel render (Some o) w in
  fst r ≠ OutOfFuel
  ∧ ∃ dry final,
      renders_of (trace (snd r)) = renders_of (trace w) ++ replicate dry true ++ final
      ∧ (final = [] ∨ final = [false])
      ∧ 1 ≤ dry ≤ Z.to_nat m
      ∧ length (replicate dry true ++ final) ≤ Z.to_nat m + 1
      ∧ (well_formed render → healthy w → ∃ out, fst r = Resolved out).
Proof.
  intros Hm Hle Hfuel. unfold frontloadServerRender. rewrite Hm.
  assert (Hnz : falsy_number (Some m) = false).
  { simpl. apply Z.eqb_neq. lia. }
  rewrite Hnz. cbv zeta.
  set (options3 := if negb production && is_undefined (withLogging o) then _ else o).
  assert (Hm3 : maxNestedFrontloadComponents options3 = Some m).
  { subst options3. destruct (negb production && is_undefined (withLogging o)); assumption. }
  destruct (worker_shape fuel render options3 1%Z 0%Z w)
    as (dry & final & Hr & Hfinal & _ & Hpos & Hmax).
  destruct (Hmax m Hm3 Hle) as [Hdry Hout].
  replace (Z.to_nat (m - 1) + 1) with (Z.to_nat m) in Hdry by lia.
  split; [apply Hout; lia|].
  exists dry, final. split; [exact Hr|]. split; [exact Hfinal|].
  split; [split; [apply Hpos; lia | exact Hdry]|].
  split.
  - rewrite length_app, length_replicate.
    destruct Hfinal as [-> | ->]; simpl; lia.
  - intros Hwf Hw. apply (worker_resolves fuel render options3 1%Z 0%Z w m); auto; lia.
Qed.


(** C7, as amended: when the budget is exhausted the worker has waited
    for the flush, renders once more for good, and compares the length of
    the first queue with the count of the dry run of this pass; only when
    it is larger, and logging is on, it logs the warning, once; it then
    empties the table and resolves with the output of that render. *)
Theorem C7_budget_exhausted_best_effort
    (fuel : nat) (render : Renderer) (options : ServerRenderOptions)
    (renderNumber frontloadsInLastRender total : Z) (w w1 w2 w4 : World)
    (t : nat) (vs : list (list Val)) (out : Output) (q4 : list Request) :
  let logging := negb production && truthy (withLogging options) in
  let max := maxNestedFrontloadComponents options in
  let new := (total - frontloadsInLastRender)%Z in
  let w3 := log_if logging (LogRan renderNumber new (clock (await t w2) - clock w1))
              (await t w2) in
  dry_run_pass render logging renderNumber w = Ok total w1 →
  new ≠ 0%Z →
  flushQueues None no_flush_options (log_if logging (LogToRun new renderNumber) w1)
  = Ok (Some (t, Fulfilled vs)) w2 →
  max = Some renderNumber →
  call_render render false w3 = Ok out w4 →
  get (FRONTLOAD_QUEUES w4) 0 = Some q4 →
  let left := (Z.of_nat (length q4) - total)%Z in
  ∃ w',
    frontloadServerRenderWorker (S fuel) render options renderNumber
      frontloadsInLastRender w
    = (Resolved out, w')
    ∧ FRONTLOAD_QUEUES w3 = []
    ∧ t ≤ clock w3
    ∧ trace w' = trace w4
                 ++ (if logging && (0 <? left)%Z
                     then [EvLog (LogWarningMaxReached max left);
                           EvLog (LogNoteExtraPass max)]
                     else [])
    ∧ FRONTLOAD_QUEUES w' = []
    ∧ renders_of (trace w') = renders_of (trace w) ++ [true; false]
    ∧ calls_of (trace w') = calls_of (trace w2).
Proof.
  intros logging max new w3 Hdry Hnew Hflush Hmax Hcall Hget left.
  assert (Hinc : incomplete_render render logging max total w3
                 = Ok out (cleanQueues None
                             (log_if (logging && (0 <? left)%Z) (LogNoteExtraPass max)
                                (log_if (logging && (0 <? left)%Z)
                                   (LogWarningMaxReached max left) w4)))).
  { unfold incomplete_render. unfold js_bind at 1. rewrite Hcall.
    unfold js_bind at 1, first_queue_length. rewrite Hget. reflexivity. }
  eexists. split.
  { rewrite worker_unfold. cbv zeta. fold logging. rewrite Hdry.
    apply Z.eqb_neq in Hnew. fold new. rewrite Hnew, Hflush. fold max w3.
    assert (Heq : z_option_eqb renderNumber max = true).
    { rewrite Hmax. simpl. apply Z.eqb_refl. }
    rewrite Heq, Hinc. reflexivity. }
  assert (Hempty : FRONTLOAD_QUEUES w2 = []).
  { simpl in Hflush. unfold js_bind, js_get, js_modify, js_ret in Hflush.
    destruct (flush_each _ _) as [ps wf|e wf]; [|discriminate].
    inversion Hflush. reflexivity. }
  split.
  { subst w3. rewrite (ignores_logs_log_if FRONTLOAD_QUEUES) by apply queues_ignore.
    exact Hempty. }
  split.
  { subst w3. rewrite (ignores_logs_log_if clock) by apply clock_ignore. simpl. lia. }
  split.
  { simpl. rewrite !log_if_trace, <- app_assoc.
    destruct (logging && (0 <? left)%Z); reflexivity. }
  split; [reflexivity|].
  pose proof (incomplete_render_renders render logging max total w3) as Hrenders.
  pose proof (incomplete_render_frame (λ w, calls_of (trace w)) render logging max total
                (proj1 calls_ignore) (proj2 calls_ignore)
                (proj1 calls_ignore_render) (proj2 calls_ignore_render) w3) as Hcalls.
  rewrite Hinc in Hrenders, Hcalls. simpl in Hrenders, Hcalls.
  split.
  - simpl. rewrite Hrenders.
    subst w3. rewrite log_if_renders, await_trace.
    pose proof (flushQueues_renders None no_flush_options
                  (log_if logging (LogToRun new renderNumber) w1)) as Hfr.
    rewrite Hflush in Hfr. simpl in Hfr. rewrite Hfr, log_if_renders.
    pose proof (dry_run_pass_renders render logging renderNumber w) as Hdr.
    rewrite Hdry in Hdr. simpl in Hdr. rewrite Hdr, <- app_assoc. reflexivity.
  - etransitivity; [exact Hcalls|]. subst w3.
    rewrite (ignores_logs_log_if (λ w, calls_of (trace w))) by apply calls_ignore.
    reflexivity.
Qed.

(** C8, as amended: no budget is refused.  A budget of 0 is replaced by
    the default 1, a negative one is handed to the worker as it is, and in
    both cases the first thing the call does is a dry run of the
    renderer. *)
Theorem C8_budget_is_not_validated
    (fuel : nat) (render : Renderer) (o : ServerRenderOptions) (m : Z) (w : World) :
  maxNestedFrontloadComponents o = Some m →
  (m < 1)%Z →
  let r := frontloadServerRender (S fuel) render (Some o) w in
  r = frontloadServerRenderWorker (S fuel) render
        {| withLogging := if negb production && is_undefined (withLogging o)
                          then Some true else withLogging o;
           maxNestedFrontloadComponents := Some (if (m =? 0)%Z then 1%Z else m) |}
        1%Z 0%Z w
  ∧ (∃ rest, renders_of (trace (snd r)) = renders_of (trace w) ++ true :: rest)
  ∧ (m = 0%Z → well_formed render → healthy w → ∃ out, fst r = Resolved out).
Proof.
  intros Hm Hlt r.
  assert (Hr : r = frontloadServerRenderWorker (S fuel) render
                     {| withLogging := if negb production && is_undefined (withLogging o)
                                       then Some true else withLogging o;
                        maxNestedFrontloadComponents :=
                          Some (if (m =? 0)%Z then 1%Z else m) |} 1%Z 0%Z w).
  { subst r. unfold frontloadServerRender. rewrite Hm. simpl.
    destruct o as [logging max]. simpl in *. subst max.
    destruct (m =? 0)%Z; simpl; destruct (negb production && is_undefined logging);
      reflexivity. }
  split; [exact Hr|]. rewrite Hr. split.
  - destruct (worker_shape (S fuel) render
                {| withLogging := if negb production && is_undefined (withLogging o)
                                  then Some true else withLogging o;
                   maxNestedFrontloadComponents := Some (if (m =? 0)%Z then 1%Z else m) |}
                1%Z 0%Z w) as (dry & final & Hrenders & _ & _ & Hpos & _).
    destruct dry as [|dry]; [specialize (Hpos ltac:(lia)); lia|].
    exists (replicate dry true ++ final). exact Hrenders.
  - intros -> Hwf Hw.
    apply (worker_resolves (S fuel) render
             {| withLogging := if negb production && is_undefined (withLogging o)
                               then Some true else withLogging o;
                maxNestedFrontloadComponents := Some 1%Z |}
             1%Z 0%Z w 1%Z Hwf Hw eq_refl); simpl; lia.
Qed.

End CoordinatorClaims.

(** * The results on the concrete application *)

Section DemoFacts.

Import Demo.
Import JsArray.

(** The end-to-end case of the settle-join: A resolves at 10, B rejects at
    20, C resolves at 30; the flush resolves at 30, with B's reason in B's
    place. *)
Example flush_of_three_resolves_at_30 :
  ∃ w', flushQueues (Some 0) no_flush_options three_queued
        = Ok (Some (30, Fulfilled [1; 2; 3])) w'.
Proof. eexists. reflexivity. Qed.


(** The default options on the server: a mount is queued, an update is
    not; with [onMount: false, onUpdate: true] it is the reverse. *)
Example default_mount_enqueues :
  ∃ w', pushFrontload server_provider (fetch_ok 10) default_options MOUNT 1 None one_slot
        = Ok tt w'
        ∧ map (option_map length) (FRONTLOAD_QUEUES w') = [Some 1].
Proof. eexists. split; reflexivity. Qed.

Example default_update_skips :
  pushFrontload server_provider (fetch_ok 10) default_options UPDATE 1 None one_slot
  = Ok tt one_slot.
Proof. reflexivity. Qed.

Example update_only_mount_skips :
  pushFrontload server_provider (fetch_ok 10) update_only MOUNT 1 None one_slot
  = Ok tt one_slot.
Proof. reflexivity. Qed.

Example update_only_update_enqueues :
  ∃ w', pushFrontload server_provider (fetch_ok 10) update_only UPDATE 1 None one_slot
        = Ok tt w'
        ∧ map (option_map length) (FRONTLOAD_QUEUES w') = [Some 1].
Proof. eexists. split; reflexivity. Qed.

(** A provider whose slot is gone cannot queue: the push throws. *)
Example push_without_slot_throws :
  ∃ e, pushFrontload server_provider (fetch_ok 10) default_options MOUNT 1 None empty_world
       = Throw e empty_world.
Proof. eexists. reflexivity. Qed.

Lemma C2_server_mount_witness :
  ∃ w',
    pushFrontload server_provider (fetch_ok 10) default_options MOUNT 1 None one_slot
    = Ok tt w'
    ∧ get (FRONTLOAD_QUEUES w') 0
      = Some [entry_of (fetch_ok 10) default_options MOUNT 1]
    ∧ calls_of (trace w') = [].
Proof.
  destruct (C2_server_push_skips_or_enqueues server_provider (fetch_ok 10) default_options
              MOUNT 1 None one_slot eq_refl) as [_ Henqueue].
  destruct (Henqueue eq_refl [] eq_refl) as (w' & Hpush & Hslot & _ & _ & Hcalls & _).
  exists w'. split; [exact Hpush|]. split; [exact Hslot | exact Hcalls].
Defined.

Lemma C3_client_mount_witness :
  (∃ w',
     pushFrontload client_provider (fetch_ok 10) default_options MOUNT 1 None one_slot
     = Ok tt w'
     ∧ calls_of (trace w') = [])
  ∧ (∃ w',
       pushFrontload (fst (Frontload_componentDidMount client_provider one_slot))
         (fetch_ok 10) default_options MOUNT 1 None one_slot
       = Ok tt w'
       ∧ calls_of (trace w')
         = [fetch_ok 10 1 {| isMount := true; isUpdate := false |}]).
Proof.
  destruct (C3_client_push_waits_for_first_render client_provider (fetch_ok 10)
              default_options MOUNT 1 None one_slot eq_refl eq_refl)
    as (Hwait & _ & Hlatch).
  split.
  - destruct (Hwait eq_refl eq_refl) as (w' & Hpush & _ & Hcalls & _).
    exists w'. split; [exact Hpush | exact Hcalls].
  - destruct (Hlatch one_slot) as (_ & w' & Hpush & Hcalls).
    exists w'. split; [exact Hpush | exact Hcalls].
Defined.

Lemma C4_three_requests_witness :
  ∃ p w',
    flushQueues (Some 0) no_flush_options three_queued = Ok p w'
    ∧ get (FRONTLOAD_QUEUES w') 0 = Some []
    ∧ length (inflight w') = 3.
Proof.
  destruct (C4_flush_empties_slot_before_waiting 0 no_flush_options three_queued
              [request_A; request_B; request_C] eq_refl)
    as (p & w' & Hflush & Hempty & _ & Hinflight & _).
  exists p, w'. split; [exact Hflush|]. split; [exact Hempty|].
  rewrite Hinflight. reflexivity.
Defined.

(** Three levels of nesting: a budget of three passes loads everything
    that settles, a budget of two leaves entity 4 out and warns once. *)
Example nested_with_three_passes :
  fst (frontloadServerRender 3 nested (passes 3) empty_world)
  = Resolved [1; 2; 1; 2; 4; 1]
  ∧ List.filter is_warning
      (logs_of (trace (snd (frontloadServerRender 3 nested (passes 3) empty_world)))) = [].
Proof. split; reflexivity. Qed.

Example nested_with_two_passes :
  fst (frontloadServerRender 2 nested (passes 2) empty_world) = Resolved [1; 2; 1]
  ∧ List.filter is_warning
      (logs_of (trace (snd (frontloadServerRender 2 nested (passes 2) empty_world))))
    = [LogWarningMaxReached (Some 2%Z) 1].
Proof. split; reflexivity. Qed.

Example nested_is_well_formed : well_formed nested.
Proof.
  intros dryRun s. unfold nested. simpl.
  destruct (loaded 1 s), (loaded 2 s); simpl;
    (split; [reflexivity|]; split; [lia|]);
    repeat constructor; intros; eexists; reflexivity.
Qed.

Lemma C5_nested_two_passes_witness :
  fst (frontloadServerRender 2 nested (passes 2) empty_world) ≠ OutOfFuel
  ∧ ∃ dry final,
      renders_of (trace (snd (frontloadServerRender 2 nested (passes 2) empty_world)))
      = replicate dry true ++ final
      ∧ length (replicate dry true ++ final) ≤ 3.
Proof.
  destruct (C5_coordinator_bounded_by_budget 2 nested
              {| withLogging := None; maxNestedFrontloadComponents := Some 2%Z |}
              2%Z empty_world eq_refl)
    as (Hfuel & dry & final & Hrenders & _ & _ & Hlen & _).
  - lia.
  - simpl. lia.
  - split; [exact Hfuel|]. exists dry, final. split; [exact Hrenders | exact Hlen].
Defined.


(** C7, as stated, fails on [flat] with a budget of one pass: after the
    last render the first queue holds one request, and no warning is
    logged, although logging is on. *)
Lemma C7_queue_not_empty_and_no_warning :
  frontloadServerRender 1 flat (passes 1) empty_world
  = (Resolved [1], cleanQueues None (after_last_render flat))
  ∧ call_render flat false (before_last_render flat) = Ok [1] (after_last_render flat)
  ∧ first_queue_length (after_last_render flat) = Ok 1 (after_last_render flat)
  ∧ List.filter is_warning
      (logs_of (trace (snd (frontloadServerRender 1 flat (passes 1) empty_world)))) = [].
Proof.
  split; [vm_compute; reflexivity|].
  split; [vm_compute; reflexivity|].
  split; vm_compute; reflexivity.
Qed.

Lemma C7_nested_one_pass_witness :
  ∃ w',
    frontloadServerRenderWorker 1 nested
      {| withLogging := Some true; maxNestedFrontloadComponents := Some 1%Z |}
      1%Z 0%Z empty_world
    = (Resolved [1], w')
    ∧ trace w' = trace (after_last_render nested)
                 ++ [EvLog (LogWarningMaxReached (Some 1%Z) 2);
                     EvLog (LogNoteExtraPass (Some 1%Z))]
    ∧ FRONTLOAD_QUEUES w' = [].
Proof.
  destruct (C7_budget_exhausted_best_effort 0 nested
              {| withLogging := Some true; maxNestedFrontloadComponents := Some 1%Z |}
              1%Z 0%Z 1%Z empty_world (after_dry_run nested) (after_flush nested)
              (after_last_render nested) 10 [[1]] [1]
              [entry_of (fetch_fail 7) default_options MOUNT 3;
               entry_of (fetch_ok 5) default_options MOUNT 2;
               entry_of (fetch_ok 10) default_options MOUNT 1]
              ltac:(vm_compute; reflexivity) ltac:(discriminate)
              ltac:(vm_compute; reflexivity) eq_refl
              ltac:(vm_compute; reflexivity) ltac:(vm_compute; reflexivity))
    as (w' & Hrun & _ & _ & Htrace & Hqueues & _ & _).
  exists w'. split; [exact Hrun|]. split; [exact Htrace | exact Hqueues].
Defined.

(** C8, as stated, fails: with a budget of 0, and with a negative one, the
    renderer is called and the call resolves. *)
Lemma C8_zero_budget_renders :
  fst (frontloadServerRender 1 flat (passes 0) empty_world) = Resolved [1]
  ∧ renders_of (trace (snd (frontloadServerRender 1 flat (passes 0) empty_world)))
    = [true; false]
  ∧ fst (frontloadServerRender 1 static (passes (-1)) empty_world) = Resolved []
  ∧ renders_of (trace (snd (frontloadServerRender 1 static (passes (-1)) empty_world)))
    = [true; false].
Proof.
  split; [vm_compute; reflexivity|].
  split; [vm_compute; reflexivity|].
  split; vm_compute; reflexivity.
Qed.

(** With a negative budget the bound is never met: the passes go on for as
    long as each finds a different number of requests. *)
Example negative_budget_runs_past_any_bound :
  fst (frontloadServerRender 3 nested (passes (-1)) empty_world) = OutOfFuel
  ∧ fst (frontloadServerRender 4 nested (passes (-1)) empty_world)
    = Resolved [1; 2; 1; 2; 4; 1].
Proof. split; reflexivity. Qed.

Lemma C8_zero_budget_witness :
  ∃ rest,
    renders_of (trace (snd (frontloadServerRender 1 flat (passes 0) empty_world)))
    = true :: rest.
Proof.
  destruct (C8_budget_is_not_validated 0 flat
              {| withLogging := None; maxNestedFrontloadComponents := Some 0%Z |}
              0%Z empty_world eq_refl) as (_ & (rest & Hrenders) & _).
  - lia.
  - exists rest. exact Hrenders.
Defined.

(** C9, as stated, fails: after [cleanQueues()] the next provider gets
    index 0 again. *)
Lemma C9_index_reused_after_reset :
  fst (run_ops [Allocate server_props; Clean None; Allocate server_props] empty_world)
  = [0; 0]
  ∧ ¬ NoDup (fst (run_ops [Allocate server_props; Clean None; Allocate server_props]
                    empty_world)).
Proof.
  split; [reflexivity|]. simpl. intros Hnodup.
  apply NoDup_cons in Hnodup as [Hnotin _]. apply Hnotin. left.
Qed.

Lemma C9_three_providers_witness :
  fst (run_ops [Allocate server_props;
                Push server_provider (fetch_ok 10) default_options MOUNT 1 None;
                Allocate client_props;
                Flush 0 no_flush_options;
                Clean (Some 1);
                Allocate server_props] empty_world) = [0; 1; 2]
  ∧ NoDup (fst (run_ops [Allocate server_props;
                         Push server_provider (fetch_ok 10) default_options MOUNT 1 None;
                         Allocate client_props;
                         Flush 0 no_flush_options;
                         Clean (Some 1);
                         Allocate server_props] empty_world)).
Proof.
  split; [reflexivity|].
  apply (C9_indices_increase_between_resets
           [Allocate server_props;
            Push server_provider (fetch_ok 10) default_options MOUNT 1 None;
            Allocate client_props;
            Flush 0 no_flush_options;
            Clean (Some 1);
            Allocate server_props] empty_world server_props eq_refl).
Defined.

Lemma C10_first_client_render_witness :
  (∃ p w',
     flushQueues None first_client_render two_slots = Ok p w'
     ∧ calls_of (trace w') = map (λ r, fn r tt) [request_A; request_B; request_C])
  ∧ (∃ p w',
       flushQueues (Some 0) first_client_render two_slots = Ok p w'
       ∧ calls_of (trace w') = []).
Proof.
  assert (Hholes : no_holes (FRONTLOAD_QUEUES two_slots)).
  { repeat constructor; eexists; reflexivity. }
  destruct (C10_flush_all_ignores_options first_client_render two_slots Hholes)
    as ((p & w' & Hflush & Hcalls & _) & _ & Hone).
  split.
  - exists p, w'. split; [exact Hflush | exact Hcalls].
  - destruct (Hone eq_refl eq_refl 0 [request_A; request_B] eq_refl) as (p1 & w1 & Hf & Hc).
    + repeat constructor.
    + exists p1, w1. split; [exact Hf | exact Hc].
Defined.

End DemoFacts.

(** * Further results *)

Section RenderResults.

Context `{Host}.

Import JsArray JsArrayFacts.

(** X1: a render made for the coordinator calls no frontload function and
    launches no fetch, whatever the tree; it only queues. *)
Theorem X1_render_calls_no_frontload (render : Renderer) (dryRun : bool) (w : World) :
  calls_of (trace (world_of (call_render render dryRun w))) = calls_of (trace w)
  ∧ inflight (world_of (call_render render dryRun w)) = inflight w
  ∧ clock (world_of (call_render render dryRun w)) = clock w
  ∧ length (FRONTLOAD_QUEUES w)
    ≤ length (FRONTLOAD_QUEUES (world_of (call_render render dryRun w))).
Proof.
  split.
  { apply (call_render_frame (λ w, calls_of (trace w)));
      solve [apply calls_ignore | apply calls_ignore_render]. }
  split.
  { apply (call_render_frame inflight);
      solve [apply inflight_ignore | apply inflight_ignore_render]. }
  split.
  { apply (call_render_frame clock); try apply clock_ignore; intros ? ?; reflexivity. }
  unfold call_render, js_bind, js_modify, js_get. simpl.
  set (w1 := emit (EvRender dryRun) w).
  change (FRONTLOAD_QUEUES w) with (FRONTLOAD_QUEUES w1).
  generalize (r_events (render dryRun (store w))) as events.
  generalize (r_store (render dryRun (store w))) as s.
  generalize (r_output (render dryRun (store w))) as out.
  generalize w1. clear w w1.
  assert (Hrun : ∀ events providers w,
             length (FRONTLOAD_QUEUES w)
             ≤ length (FRONTLOAD_QUEUES (world_of (run_events events providers w)))).
  { induction events as [|[p|k frontload nodeOptions component componentProps] rest IH];
      intros providers w; simpl.
    - reflexivity.
    - unfold js_bind. simpl. etransitivity; [|apply IH]. simpl.
      rewrite length_app. lia.
    - destruct (providers !! k) as [context|]; [|reflexivity].
      unfold js_bind.
      unfold connected_hooks.
      destruct (isServer context) eqn:Hserver; simpl.
      + unfold js_bind, connected_pushFrontload.
        pose proof (pushFrontload_length context frontload nodeOptions MOUNT componentProps
                      (if negb production then None
                       else Some ("for component: ["
                                  +:+ (if truthy_str component then default "" component
                                       else "anonymous")
                                  +:+ "] on [" +:+ "mount" +:+ "]")) w) as Hlen.
        destruct (pushFrontload _ _ _ _ _ _ w) as [[] w'|e w']; simpl in *;
          [etransitivity; [exact Hlen | apply IH] | exact Hlen].
      + apply IH. }
  intros w out s events. specialize (Hrun events [] w).
  destruct (run_events events [] w); simpl in *; exact Hrun.
Qed.

(** X7: the flush of one slot throws, and changes nothing, when the slot is
    missing; otherwise it touches neither the other slots, nor the length
    of the table, nor the store. *)
Theorem X7_flush_of_a_slot_is_local (index : nat) (flushOptions : FlushOptions) (w : World) :
  (get (FRONTLOAD_QUEUES w) index = None →
   ∃ e, flushQueues (Some index) flushOptions w = Throw e w)
  ∧ (∀ queue, get (FRONTLOAD_QUEUES w) index = Some queue →
       ∃ p w',
         flushQueues (Some index) flushOptions w = Ok p w'
         ∧ (∀ j, j ≠ index → get (FRONTLOAD_QUEUES w') j = get (FRONTLOAD_QUEUES w) j)
         ∧ length (FRONTLOAD_QUEUES w') = length (FRONTLOAD_QUEUES w)
         ∧ store w' = store w
         ∧ clock w' = clock w
         ∧ renders_of (trace w') = renders_of (trace w)).
Proof.
  split.
  - intros Hget. simpl. unfold flushQueue. rewrite Hget. eexists. reflexivity.
  - intros queue Hget.
    destruct (flushQueue_spec index flushOptions w queue Hget)
      as (w' & Hflush & Hq & Hs & Hc & _ & _ & Hr).
    eexists _, w'. split; [exact Hflush|].
    split; [intros j Hj; rewrite Hq; apply get_set_ne; congruence|].
    split; [rewrite Hq; apply set_length_lt; eapply get_Some_lt; eauto|].
    auto.
Qed.

End RenderResults.

Section CoordinatorResults.

Context `{Host}.

Import JsArray JsArrayFacts.

Lemma get_nil {A} (i : nat) : get ([] : list (option A)) i = None.
Proof. unfold get. rewrite lookup_nil. reflexivity. Qed.

(** With an empty table, a render that mounts no provider throws or
    leaves the table empty. *)
Lemma call_render_without_provider render dryRun w :
  FRONTLOAD_QUEUES w = [] →
  mounts (r_events (render dryRun (store w))) = 0 →
  match call_render render dryRun w with
  | Ok _ w' => FRONTLOAD_QUEUES w' = []
  | Throw _ _ => True
  end.
Proof.
  intros Hempty Hmounts. unfold call_render, js_bind, js_modify, js_get. simpl.
  destruct (r_events (render dryRun (store w)))
    as [|[p|k frontload nodeOptions component componentProps] rest];
    simpl in Hmounts; [| discriminate |]; simpl.
  - exact Hempty.
  - exact I.
Qed.

(** With an empty table, a dry run that mounts no provider throws. *)
Lemma dry_run_pass_without_provider render logging renderNumber w :
  FRONTLOAD_QUEUES w = [] →
  mounts (r_events (render true (store w))) = 0 →
  ∃ e w', dry_run_pass render logging renderNumber w = Throw e w'.
Proof.
  intros Hempty Hmounts. unfold dry_run_pass. rewrite js_bind_modify.
  set (w0 := log_if logging (LogRunningPass renderNumber) w).
  assert (Hstore : store w0 = store w).
  { subst w0. apply (ignores_logs_log_if store), store_ignore. }
  assert (Hq : FRONTLOAD_QUEUES w0 = []).
  { subst w0. rewrite (ignores_logs_log_if FRONTLOAD_QUEUES) by apply queues_ignore.
    exact Hempty. }
  rewrite <- Hstore in Hmounts.
  pose proof (call_render_without_provider render true w0 Hq Hmounts) as Hcall.
  unfold js_bind at 1.
  destruct (call_render render true w0) as [out w1|e w1]; [|eexists _, _; reflexivity].
  unfold js_bind at 1, first_queue_length. rewrite Hcall, get_nil.
  eexists _, _. reflexivity.
Qed.

(** X2: when the table is empty and the dry run mounts no provider, the
    coordinator throws a [TypeError] synchronously, after that one render,
    and calls no frontload function. *)
Theorem X2_no_provider_throws
    (fuel : nat) (render : Renderer) (options : option ServerRenderOptions) (w : World) :
  FRONTLOAD_QUEUES w = [] →
  mounts (r_events (render true (store w))) = 0 →
  ∃ e w',
    frontloadServerRender (S fuel) render options w = (Threw e, w')
    ∧ renders_of (trace w') = renders_of (trace w) ++ [true]
    ∧ calls_of (trace w') = calls_of (trace w).
Proof.
  intros Hempty Hmounts. unfold frontloadServerRender.
  set (options3 := if negb production && _ then _ else _).
  rewrite worker_unfold. cbv zeta.
  set (logging := negb production && truthy (withLogging options3)).
  destruct (dry_run_pass_without_provider render logging 1%Z w Hempty Hmounts)
    as (e & w' & Hdry).
  pose proof (dry_run_pass_renders render logging 1%Z w) as Hrenders.
  pose proof (dry_run_pass_frame (λ w, calls_of (trace w)) render logging 1%Z
                (proj1 calls_ignore) (proj2 calls_ignore)
                (proj1 calls_ignore_render) (proj2 calls_ignore_render) w) as Hcalls.
  rewrite Hdry in *. simpl in Hrenders, Hcalls. eauto.
Qed.

(** With an empty budget the worker runs with a budget of one pass. *)
Lemma default_budget_options (options : option ServerRenderOptions) :
  match options with
  | None => True
  | Some o => falsy_number (maxNestedFrontloadComponents o) = true
  end →
  ∀ fuel render w,
    ∃ options',
      maxNestedFrontloadComponents options' = Some 1%Z
      ∧ frontloadServerRender fuel render options w
        = frontloadServerRenderWorker fuel render options' 1%Z 0%Z w.
Proof.
  intros Hdefault fuel render w. unfold frontloadServerRender.
  destruct options as [o|]; simpl.
  - rewrite Hdefault. simpl.
    destruct (negb production && is_undefined (withLogging o));
      eexists; split; try reflexivity; reflexivity.
  - destruct (negb production && true); eexists; split; try reflexivity; reflexivity.
Qed.

(** X4: without options, and with options that give no budget (absent or
    0), the coordinator runs like with a budget of one pass: one unit of
    fuel is enough, and the renderer is called for one dry run and at most
    one final render. *)
Theorem X4_default_budget_is_one_pass
    (fuel : nat) (render : Renderer) (options : option ServerRenderOptions) (w : World) :
  match options with
  | None => True
  | Some o => falsy_number (maxNestedFrontloadComponents o) = true
  end →
  let r := frontloadServerRender (S fuel) render options w in
  fst r ≠ OutOfFuel
  ∧ ∃ final,
      renders_of (trace (snd r)) = renders_of (trace w) ++ true :: final
      ∧ (final = [] ∨ final = [false]).
Proof.
  intros Hdefault r.
  destruct (default_budget_options options Hdefault (S fuel) render w)
    as (options' & Hmax & Hrun).
  subst r. rewrite Hrun.
  destruct (worker_shape (S fuel) render options' 1%Z 0%Z w)
    as (dry & final & Hr & Hfinal & _ & Hpos & Hbound).
  destruct (Hbound 1%Z Hmax ltac:(lia)) as [Hdry Hfuel].
  split; [apply Hfuel; simpl; lia|].
  assert (dry = 1) as -> by (specialize (Hpos ltac:(lia)); simpl in Hdry; lia).
  exists final. split; [exact Hr | exact Hfinal].
Qed.

End CoordinatorResults.

Section QuietRenders.

Context `{Host}.

Import JsArray JsArrayFacts.





End QuietRenders.

Section Silence.

Context `{Host}.

Import JsArray JsArrayFacts.

Lemma logs_of_app_other (t : list Event) (e : Event) :
  (∀ m, e ≠ EvLog m) → logs_of (t ++ [e]) = logs_of t.
Proof.
  intros He. rewrite logs_of_app. destruct e; simpl; try apply app_nil_r.
  exfalso. eapply He. reflexivity.
Qed.

(** A push whose message is not logged leaves the log as it is. *)
Lemma pushFrontload_silent this frontload nodeOptions phase childProps logMessage :
  negb production && truthy_str logMessage = false →
  js_frame (λ w, logs_of (trace w))
    (pushFrontload this frontload nodeOptions phase childProps logMessage).
Proof.
  intros Hquiet w. unfold pushFrontload.
  assert (Hlogging : negb production && truthy (props_withLogging (props this))
                     && truthy_str logMessage = false).
  { destruct (negb production), (truthy (props_withLogging (props this))),
      (truthy_str logMessage); simpl in *; congruence. }
  rewrite Hlogging.
  destruct (_ || _ || _); [reflexivity|].
  destruct (isServer this).
  - destruct (get _ _); reflexivity.
  - destruct (_ || _); simpl; [|reflexivity].
    apply logs_of_app_other. discriminate.
Qed.

Lemma connected_push_silent context frontload nodeOptions component componentProps phase :
  js_frame (λ w, logs_of (trace w))
    (connected_pushFrontload context frontload nodeOptions component componentProps phase).
Proof.
  unfold connected_pushFrontload. apply pushFrontload_silent.
  destruct production; reflexivity.
Qed.

(** X5: a push made by a connected component never writes to the log,
    whatever [withLogging] says: outside production the component passes no
    message, and in production nothing is logged. *)
Theorem X5_connected_push_never_logs
    (context : Frontload) (frontload : FrontloadFn) (nodeOptions : NodeOptions)
    (component : option string) (componentProps : Props) (phase : LifecyclePhase)
    (w : World) :
  logs_of (trace (world_of (connected_pushFrontload context frontload nodeOptions
                              component componentProps phase w)))
  = logs_of (trace w).
Proof. apply connected_push_silent. Qed.

Lemma run_events_silent events providers :
  js_frame (λ w, logs_of (trace w)) (run_events events providers).
Proof.
  revert providers.
  induction events as [|[p|k frontload nodeOptions component componentProps] rest IH];
    intros providers; simpl.
  - apply js_frame_ret.
  - apply js_frame_bind; [|intros; apply IH]. intros w. reflexivity.
  - destruct (providers !! k) as [context|]; [|apply js_frame_throw].
    apply js_frame_bind; [|intros; apply IH].
    generalize (connected_hooks context) as hooks.
    induction hooks as [|[h phase] hooks IHhooks]; simpl; [apply js_frame_ret|].
    apply js_frame_bind; [|intros; apply IHhooks].
    destruct (fired_by_server_render h); [apply connected_push_silent | apply js_frame_ret].
Qed.

Lemma call_render_silent render dryRun :
  js_frame (λ w, logs_of (trace w)) (call_render render dryRun).
Proof.
  unfold call_render.
  apply js_frame_bind; [|intros _].
  { apply js_frame_modify. intros w. simpl. apply logs_of_app_other. discriminate. }
  apply js_frame_bind; [apply js_frame_get | intros r].
  apply js_frame_bind; [apply run_events_silent | intros _].
  apply js_frame_bind; [apply js_frame_modify; reflexivity | intros _].
  apply js_frame_ret.
Qed.

Lemma flush_loop_silent queue w :
  logs_of (trace (snd (flush_loop no_flush_options queue w))) = logs_of (trace w).
Proof.
  revert w. induction queue as [|frontload rest IH]; intros w; simpl; [reflexivity|].
  set (w1 := Build_World _ _ _ _ _). specialize (IH w1).
  destruct (flush_loop no_flush_options rest w1) as [ps w2]. simpl in *.
  rewrite IH. subst w1. simpl. apply logs_of_app_other. discriminate.
Qed.

Lemma flushQueue_silent index : js_frame (λ w, logs_of (trace w)) (flushQueue index no_flush_options).
Proof.
  intros w. unfold flushQueue. destruct (get _ _) as [queue|]; [|reflexivity].
  pose proof (flush_loop_silent queue w) as Hloop.
  destruct (flush_loop no_flush_options queue w) as [ps w1]. exact Hloop.
Qed.

Lemma flushQueues_all_silent flushOptions :
  js_frame (λ w, logs_of (trace w)) (flushQueues None flushOptions).
Proof.
  simpl. apply js_frame_bind; [apply js_frame_get | intros n].
  apply js_frame_bind; [|intros ps].
  { generalize (seq 0 n) as indices. induction indices as [|i rest IH]; simpl.
    - apply js_frame_ret.
    - apply js_frame_bind; [apply flushQueue_silent | intros p].
      apply js_frame_bind; [exact IH | intros; apply js_frame_ret]. }
  apply js_frame_bind; [apply js_frame_get | intros p].
  apply js_frame_bind; [apply js_frame_modify; reflexivity | intros; apply js_frame_ret].
Qed.

Lemma worker_silent fuel render options renderNumber frontloadsInLastRender w :
  negb production && truthy (withLogging options) = false →
  logs_of (trace (snd (frontloadServerRenderWorker fuel render options renderNumber
                         frontloadsInLastRender w)))
  = logs_of (trace w).
Proof.
  intros Hquiet. revert renderNumber frontloadsInLastRender w.
  induction fuel as [|fuel IH]; intros renderNumber lastCount w; [reflexivity|].
  rewrite worker_unfold. cbv zeta. rewrite Hquiet.
  assert (Hdry : js_frame (λ w, logs_of (trace w)) (dry_run_pass render false renderNumber)).
  { unfold dry_run_pass.
    apply js_frame_bind; [apply js_frame_modify; reflexivity | intros _].
    apply js_frame_bind; [apply call_render_silent | intros _].
    apply js_frame_bind; [apply first_queue_length_frame | intros n].
    apply js_frame_bind; [apply js_frame_modify; reflexivity | intros; apply js_frame_ret]. }
  specialize (Hdry w).
  destruct (dry_run_pass render false renderNumber w) as [total w1|e w1]; simpl in Hdry;
    [|exact Hdry].
  destruct (total - lastCount =? 0)%Z.
  { assert (Hfinal : js_frame (λ w, logs_of (trace w))
                       (final_render render false renderNumber
                          (maxNestedFrontloadComponents options))).
    { unfold final_render.
      apply js_frame_bind; [apply js_frame_modify; reflexivity | intros _].
      apply js_frame_bind; [apply js_frame_modify; reflexivity | intros _].
      apply js_frame_bind; [apply call_render_silent | intros out].
      repeat (apply js_frame_bind; [apply js_frame_modify; reflexivity | intros _]).
      apply js_frame_ret. }
    specialize (Hfinal w1).
    destruct (final_render _ _ _ _ w1); simpl in *; congruence. }
  cbn [log_if].
  pose proof (flushQueues_all_silent no_flush_options w1) as Hflush.
  destruct (flushQueues None no_flush_options w1) as [p w2|e w2]; cbn [world_of] in Hflush;
    [|cbn [snd]; congruence].
  destruct p as [[t [vs|reason]]|]; [| cbn [snd]; simpl; congruence | cbn [snd]; congruence].
  set (w3 := await t w2).
  assert (Hw3 : logs_of (trace w3) = logs_of (trace w)) by (subst w3; simpl; congruence).
  destruct (z_option_eqb renderNumber (maxNestedFrontloadComponents options)).
  { assert (Hinc : js_frame (λ w, logs_of (trace w))
                     (incomplete_render render false
                        (maxNestedFrontloadComponents options) total)).
    { unfold incomplete_render.
      apply js_frame_bind; [apply call_render_silent | intros out].
      apply js_frame_bind; [apply first_queue_length_frame | intros n].
      repeat (apply js_frame_bind; [apply js_frame_modify; reflexivity | intros _]).
      apply js_frame_ret. }
    specialize (Hinc w3).
    destruct (incomplete_render _ _ _ _ w3); simpl in *; congruence. }
  specialize (IH (renderNumber + 1)%Z (lastCount + (total - lastCount))%Z w3).
  destruct (frontloadServerRenderWorker fuel render options _ _ w3) as [[] w4];
    simpl in *; congruence.
Qed.

(** X6: in production, and with [withLogging: false], a run of the
    coordinator writes nothing to the log. *)
Theorem X6_coordinator_is_silent_without_logging
    (fuel : nat) (render : Renderer) (o : ServerRenderOptions) (w : World) :
  production = true ∨ withLogging o = Some false →
  logs_of (trace (snd (frontloadServerRender fuel render (Some o) w))) = logs_of (trace w).
Proof.
  intros Hquiet. unfold frontloadServerRender. apply worker_silent.
  destruct Hquiet as [Hprod | Hoff].
  - rewrite Hprod. reflexivity.
  - rewrite Hoff.
    destruct production, (falsy_number (maxNestedFrontloadComponents o)); simpl;
      rewrite ?Hoff; simpl; rewrite ?Hoff; reflexivity.
Qed.

End Silence.

Section QueueOrder.

Context `{Host}.

Import JsArray JsArrayFacts.

Lemma set_set {A} (arr : list (option A)) i x y : set i x (set i y arr) = set i x arr.
Proof.
  revert arr. induction i as [|i IH]; intros [|slot rest]; simpl; try reflexivity.
  - rewrite (IH []). reflexivity.
  - rewrite IH. reflexivity.
Qed.

(** A component that queues on the server puts its entry in front of the
    queue of its provider. *)
Lemma fire_hooks_queues context frontload nodeOptions component componentProps w q :
  isServer context = true →
  queued_on_server (props context) nodeOptions = true →
  provider_isServer (props context) = true →
  get (FRONTLOAD_QUEUES w) (queueIndex context) = Some q →
  ∃ w',
    fire_hooks (connected_hooks context)
      (connected_pushFrontload context frontload nodeOptions component componentProps) w
    = Ok tt w'
    ∧ FRONTLOAD_QUEUES w'
      = set (queueIndex context) (entry_of frontload nodeOptions MOUNT componentProps :: q)
          (FRONTLOAD_QUEUES w)
    ∧ calls_of (trace w') = calls_of (trace w)
    ∧ store w' = store w.
Proof.
  intros Hserver Hqueued Hprov Hq. unfold connected_hooks. rewrite Hserver. simpl.
  unfold js_bind, connected_pushFrontload, pushFrontload. rewrite Hserver, Hq. simpl.
  unfold queued_on_server in Hqueued. rewrite Hprov in Hqueued. simpl in Hqueued.
  apply andb_true_iff in Hqueued as [Hnsr Hmount].
  apply negb_true_iff in Hnsr. apply negb_true_iff in Hmount.
  rewrite Hnsr, Hmount. simpl.
  eexists. split; [reflexivity|].
  rewrite (ignores_logs_log_if FRONTLOAD_QUEUES) by apply queues_ignore.
  rewrite (ignores_logs_log_if (λ w, calls_of (trace w))) by apply calls_ignore.
  rewrite (ignores_logs_log_if store) by apply store_ignore.
  repeat split.
Qed.

Lemma run_events_connected_nodes context nodes w acc :
  isServer context = true →
  provider_isServer (props context) = true →
  Forall (λ node, queued_on_server (props context) (node_options node) = true) nodes →
  get (FRONTLOAD_QUEUES w) (queueIndex context) = Some acc →
  ∃ w',
    run_events
      (map (λ node, Mount_Connected 0 (node_frontload node) (node_options node)
                      (node_component node) (node_props node)) nodes)
      [context] w
    = Ok tt w'
    ∧ FRONTLOAD_QUEUES w'
      = set (queueIndex context)
          (rev (map (λ node, entry_of (node_frontload node) (node_options node) MOUNT
                               (node_props node)) nodes) ++ acc)
          (FRONTLOAD_QUEUES w)
    ∧ calls_of (trace w') = calls_of (trace w)
    ∧ store w' = store w.
Proof.
  intros Hserver Hprov Hnodes. revert w acc.
  induction Hnodes as [|node nodes Hnode _ IH]; intros w acc Hacc; simpl.
  - exists w. split; [reflexivity|]. split; [|split; reflexivity].
    rewrite set_in_range by (eapply get_Some_lt; eauto).
    symmetry. apply list_insert_id. unfold get in Hacc.
    destruct (FRONTLOAD_QUEUES w !! queueIndex context) as [[q|]|]; congruence.
  - unfold js_bind.
    destruct (fire_hooks_queues context (node_frontload node) (node_options node)
                (node_component node) (node_props node) w acc Hserver Hnode Hprov Hacc)
      as (w1 & Hfire & Hq1 & Hcalls1 & Hstore1).
    rewrite Hfire.
    destruct (IH w1 (entry_of (node_frontload node) (node_options node) MOUNT
                       (node_props node) :: acc)) as (w' & Hrun & Hq & Hcalls & Hstore).
    { rewrite Hq1. apply get_set_eq. }
    exists w'. split; [exact Hrun|].
    split; [|split; congruence].
    rewrite Hq, Hq1, set_set, <- app_assoc. reflexivity.
Qed.

Lemma set_app_last {A} (arr : list (option A)) x y :
  set (length arr) x (arr ++ [y]) = arr ++ [Some x].
Proof. induction arr as [|a arr IH]; simpl; [reflexivity | rewrite IH; reflexivity]. Qed.

Lemma run_events_one_provider p nodes w :
  provider_isServer p = true →
  Forall (λ node, queued_on_server p (node_options node) = true) nodes →
  ∃ w',
    run_events (one_provider p nodes) [] w = Ok tt w'
    ∧ FRONTLOAD_QUEUES w'
      = FRONTLOAD_QUEUES w
        ++ [Some (rev (map (λ node, entry_of (node_frontload node) (node_options node)
                                      MOUNT (node_props node)) nodes))]
    ∧ calls_of (trace w') = calls_of (trace w)
    ∧ store w' = store w.
Proof.
  intros Hprov Hnodes.
  destruct (run_events_connected_nodes (fst (Frontload_constructor p w)) nodes
              (snd (Frontload_constructor p w)) []) as (w' & Hrun & Hq & Hcalls & Hstore).
  { exact Hprov. }
  { exact Hprov. }
  { exact Hnodes. }
  { simpl. rewrite Nat.sub_0_r. apply get_app_new. }
  exists w'. split.
  { unfold one_provider. cbn [run_events]. unfold js_bind at 1.
    simpl in Hrun |- *. exact Hrun. }
  simpl in Hq, Hcalls, Hstore. rewrite Nat.sub_0_r, app_nil_r, set_app_last in Hq.
  auto.
Qed.

(** X9: the components of a render queue in front of the queue, so the
    flush that follows calls their frontload functions in the reverse of the
    order in which they appeared. *)
Theorem X9_requests_run_in_reverse_order
    (render : Renderer) (dryRun : bool) (flushOptions : FlushOptions) (w : World)
    (p : FrontloadProps) (nodes : list ConnectedNode) :
  FRONTLOAD_QUEUES w = [] →
  r_events (render dryRun (store w)) = one_provider p nodes →
  provider_isServer p = true →
  Forall (λ node, queued_on_server p (node_options node) = true) nodes →
  ∃ out w1 promises w2,
    call_render render dryRun w = Ok out w1
    ∧ FRONTLOAD_QUEUES w1
      = [Some (rev (map (λ node, entry_of (node_frontload node) (node_options node) MOUNT
                                   (node_props node)) nodes))]
    ∧ flushQueues None flushOptions w1 = Ok promises w2
    ∧ calls_of (trace w2) = calls_of (trace w) ++ rev (map (call_of MOUNT) nodes).
Proof.
  intros Hempty Hevents Hprov Hnodes.
  destruct (run_events_one_provider p nodes (emit (EvRender dryRun) w) Hprov Hnodes)
    as (w' & Hrun & Hq & Hcalls & _).
  simpl in Hq, Hcalls. rewrite Hempty in Hq. simpl in Hq.
  assert (Hcall : call_render render dryRun w
                  = Ok (r_output (render dryRun (store w)))
                      (set_store (r_store (render dryRun (store w))) w')).
  { unfold call_render, js_bind, js_modify, js_get. simpl. rewrite Hevents, Hrun.
    reflexivity. }
  set (w1 := set_store (r_store (render dryRun (store w))) w') in *.
  destruct (flushQueues_all_spec flushOptions w1) as (w2 & Hflush & _ & _ & _ & _ & Hc & _).
  { subst w1. simpl. rewrite Hq. repeat constructor. eauto. }
  eexists _, w1, _, w2. split; [exact Hcall|]. split; [exact Hq|].
  split; [exact Hflush|].
  rewrite Hc. subst w1. simpl. rewrite Hq. unfold queued. simpl. rewrite app_nil_r.
  rewrite Hcalls, calls_of_app. simpl. rewrite app_nil_r.
  rewrite map_rev, map_map. reflexivity.
Qed.

End QueueOrder.

Section NoHoles.

Context `{Host}.

Import JsArray JsArrayFacts.

Lemma js_keeps_ret {A} (P : World → Prop) (a : A) : js_keeps P (js_ret a).
Proof. intros w Hw. exact Hw. Qed.

Lemma js_keeps_bind {A B} (P : World → Prop) (m : JS A) (k : A → JS B) :
  js_keeps P m → (∀ a, js_keeps P (k a)) → js_keeps P (js_bind m k).
Proof.
  intros Hm Hk w Hw. unfold js_bind. specialize (Hm w Hw).
  destruct (m w) as [a w'|e w']; simpl in *; [apply Hk, Hm | exact Hm].
Qed.

Lemma no_holes_log_if cond m w :
  table_has_no_holes w → table_has_no_holes (log_if cond m w).
Proof. destruct cond; auto. Qed.

Lemma pushFrontload_no_holes this frontload nodeOptions phase childProps logMessage :
  js_keeps table_has_no_holes
    (pushFrontload this frontload nodeOptions phase childProps logMessage).
Proof.
  intros w Hw. unfold pushFrontload.
  destruct (_ || _ || _); [exact Hw|].
  destruct (isServer this).
  - destruct (get _ _) as [q|] eqn:Hq; [|exact Hw]. simpl.
    apply no_holes_log_if. unfold table_has_no_holes. simpl.
    apply no_holes_set; [exact Hw | eapply get_Some_lt; eauto].
  - destruct (_ || _); simpl; apply no_holes_log_if; exact Hw.
Qed.

Lemma flushQueue_no_holes index flushOptions :
  js_keeps table_has_no_holes (flushQueue index flushOptions).
Proof.
  intros w Hw. unfold flushQueue.
  destruct (get _ _) as [queue|] eqn:Hq; [|exact Hw].
  destruct (flush_loop_spec flushOptions queue w) as (_ & Hqueues & _).
  destruct (flush_loop flushOptions queue w) as [ps w1]. simpl in *.
  unfold table_has_no_holes. simpl. rewrite Hqueues.
  apply no_holes_set; [exact Hw | eapply get_Some_lt; eauto].
Qed.

Lemma flushQueues_no_holes index flushOptions :
  js_keeps table_has_no_holes (flushQueues index flushOptions).
Proof.
  destruct index as [i|]; simpl; [apply flushQueue_no_holes|].
  apply js_keeps_bind; [intros w Hw; exact Hw | intros n].
  apply js_keeps_bind; [|intros ps].
  { generalize (seq 0 n) as indices. induction indices as [|i rest IH]; simpl.
    - apply js_keeps_ret.
    - apply js_keeps_bind; [apply flushQueue_no_holes | intros p].
      apply js_keeps_bind; [exact IH | intros; apply js_keeps_ret]. }
  apply js_keeps_bind; [intros w Hw; exact Hw | intros p].
  apply js_keeps_bind; [|intros; apply js_keeps_ret].
  intros w _. constructor.
Qed.

Lemma run_events_no_holes events providers :
  js_keeps table_has_no_holes (run_events events providers).
Proof.
  revert providers.
  induction events as [|[p|k frontload nodeOptions component componentProps] rest IH];
    intros providers; simpl.
  - apply js_keeps_ret.
  - apply js_keeps_bind; [|intros; apply IH].
    intros w Hw. simpl. apply Forall_app. split; [exact Hw | repeat constructor; eauto].
  - destruct (providers !! k) as [context|]; [|intros w Hw; exact Hw].
    apply js_keeps_bind; [|intros; apply IH].
    generalize (connected_hooks context) as hooks.
    induction hooks as [|[h phase] hooks IHhooks]; simpl; [apply js_keeps_ret|].
    apply js_keeps_bind; [|intros; apply IHhooks].
    destruct (fired_by_server_render h); [|apply js_keeps_ret].
    apply pushFrontload_no_holes.
Qed.

Lemma call_render_no_holes render dryRun :
  js_keeps table_has_no_holes (call_render render dryRun).
Proof.
  unfold call_render.
  apply js_keeps_bind; [intros w Hw; exact Hw | intros _].
  apply js_keeps_bind; [intros w Hw; exact Hw | intros r].
  apply js_keeps_bind; [apply run_events_no_holes | intros _].
  apply js_keeps_bind; [intros w Hw; exact Hw | intros; apply js_keeps_ret].
Qed.

Lemma worker_no_holes fuel render options renderNumber frontloadsInLastRender w :
  table_has_no_holes w →
  table_has_no_holes
    (snd (frontloadServerRenderWorker fuel render options renderNumber
            frontloadsInLastRender w)).
Proof.
  revert renderNumber frontloadsInLastRender w.
  induction fuel as [|fuel IH]; intros renderNumber lastCount w Hw; [exact Hw|].
  rewrite worker_unfold. cbv zeta.
  set (logging := negb production && truthy (withLogging options)).
  assert (Hlog : ∀ cond m, js_keeps table_has_no_holes (js_modify (log_if cond m))).
  { intros cond m w' Hw'. apply no_holes_log_if, Hw'. }
  assert (Hclean : js_keeps table_has_no_holes (js_modify (cleanQueues None))).
  { intros w' _. constructor. }
  assert (Hfirst : js_keeps table_has_no_holes first_queue_length).
  { intros w' Hw'. unfold first_queue_length. destruct (get _ _); exact Hw'. }
  assert (Hdry : js_keeps table_has_no_holes (dry_run_pass render logging renderNumber)).
  { unfold dry_run_pass.
    apply js_keeps_bind; [apply Hlog | intros _].
    apply js_keeps_bind; [apply call_render_no_holes | intros _].
    apply js_keeps_bind; [apply Hfirst | intros n].
    apply js_keeps_bind; [apply Hlog | intros; apply js_keeps_ret]. }
  specialize (Hdry w Hw).
  destruct (dry_run_pass render logging renderNumber w) as [total w1|e w1]; simpl in Hdry;
    [|exact Hdry].
  destruct (total - lastCount =? 0)%Z.
  { assert (Hfinal : js_keeps table_has_no_holes
                       (final_render render logging renderNumber
                          (maxNestedFrontloadComponents options))).
    { unfold final_render.
      apply js_keeps_bind; [apply Hlog | intros _].
      apply js_keeps_bind; [apply Hclean | intros _].
      apply js_keeps_bind; [apply call_render_no_holes | intros out].
      apply js_keeps_bind; [apply Hlog | intros _].
      apply js_keeps_bind; [apply Hlog | intros _].
      apply js_keeps_bind; [apply Hclean | intros; apply js_keeps_ret]. }
    specialize (Hfinal w1 Hdry).
    destruct (final_render _ _ _ _ w1); exact Hfinal. }
  pose proof (flushQueues_no_holes None no_flush_options
                (log_if logging (LogToRun (total - lastCount) renderNumber) w1)
                (no_holes_log_if _ _ _ Hdry)) as Hflush.
  destruct (flushQueues None no_flush_options _) as [p w2|e w2]; cbn [world_of] in Hflush;
    [|exact Hflush].
  destruct p as [[t [vs|reason]]|]; [| exact Hflush | exact Hflush].
  set (w3 := log_if logging _ (await t w2)).
  assert (Hw3 : table_has_no_holes w3).
  { subst w3. apply no_holes_log_if. exact Hflush. }
  destruct (z_option_eqb renderNumber (maxNestedFrontloadComponents options)).
  { assert (Hinc : js_keeps table_has_no_holes
                     (incomplete_render render logging
                        (maxNestedFrontloadComponents options) total)).
    { unfold incomplete_render.
      apply js_keeps_bind; [apply call_render_no_holes | intros out].
      apply js_keeps_bind; [apply Hfirst | intros n].
      apply js_keeps_bind; [apply Hlog | intros _].
      apply js_keeps_bind; [apply Hlog | intros _].
      apply js_keeps_bind; [apply Hclean | intros; apply js_keeps_ret]. }
    specialize (Hinc w3 Hw3).
    destruct (incomplete_render _ _ _ _ w3); exact Hinc. }
  specialize (IH (renderNumber + 1)%Z (lastCount + (total - lastCount))%Z w3 Hw3).
  destruct (frontloadServerRenderWorker fuel render options _ _ w3) as [[] w4]; exact IH.
Qed.

(** X10: no operation that code outside the module can cause (constructing
    a provider, a push, a flush, a run of the coordinator) leaves a hole in
    the table: every index below its length holds a queue. *)
Theorem X10_table_never_gets_a_hole
    (ops : list RegistryOp) (fuel : nat) (render : Renderer)
    (options : option ServerRenderOptions) (w : World) :
  forallb from_outside ops = true →
  no_holes (FRONTLOAD_QUEUES w) →
  no_holes (FRONTLOAD_QUEUES (snd (run_ops ops w)))
  ∧ no_holes (FRONTLOAD_QUEUES (snd (frontloadServerRender fuel render options w)))
  ∧ ∀ i, i < length (FRONTLOAD_QUEUES (snd (run_ops ops w))) →
         is_Some (get (FRONTLOAD_QUEUES (snd (run_ops ops w))) i).
Proof.
  intros Hops Hw.
  assert (Hrun : no_holes (FRONTLOAD_QUEUES (snd (run_ops ops w)))).
  { revert w Hw. induction ops as [|op rest IH]; intros w Hw; simpl in *; [exact Hw|].
    apply andb_true_iff in Hops as [Hop Hrest].
    destruct op as [p|index|this frontload nodeOptions phase childProps logMessage
                    |index flushOptions|flushOptions]; simpl in Hop; try discriminate.
    - specialize (IH Hrest (set_queues (FRONTLOAD_QUEUES w ++ [Some []]) w)).
      simpl in IH.
      destruct (run_ops rest (set_queues (FRONTLOAD_QUEUES w ++ [Some []]) w)) as [indices w2].
      simpl in *. apply IH. apply Forall_app. split; [exact Hw | repeat constructor; eauto].
    - apply IH; [exact Hrest|].
      apply (pushFrontload_no_holes this frontload nodeOptions phase childProps
               logMessage w Hw).
    - apply IH; [exact Hrest|]. apply (flushQueues_no_holes (Some index) flushOptions w Hw).
    - apply IH; [exact Hrest|]. apply (flushQueues_no_holes None flushOptions w Hw). }
  split; [exact Hrun|]. split.
  - unfold frontloadServerRender. apply worker_no_holes. exact Hw.
  - intros i Hi. apply no_holes_get; assumption.
Qed.

End NoHoles.

Section ClientResults.

Context `{Host}.

Import JsArray JsArrayFacts.

(** A push on the client: whether the frontload function is called. *)
Lemma client_push_calls this frontload nodeOptions phase childProps logMessage w :
  isServer this = false →
  ∃ w',
    pushFrontload this frontload nodeOptions phase childProps logMessage w = Ok tt w'
    ∧ FRONTLOAD_QUEUES w' = FRONTLOAD_QUEUES w
    ∧ calls_of (trace w')
      = calls_of (trace w)
        ++ (if negb (lifecycle_skips nodeOptions phase)
               && (effectiveNoServerRender this nodeOptions || firstClientRenderDone this)
            then [frontload childProps {| isMount := phase_eqb phase MOUNT;
                                          isUpdate := phase_eqb phase UPDATE |}]
            else []).
Proof.
  intros Hclient. unfold pushFrontload.
  pose proof (push_gate this nodeOptions phase) as Hgate. rewrite Hclient in Hgate.
  simpl in Hgate. rewrite Hclient. simpl. rewrite Hgate. clear Hgate.
  unfold effectiveNoServerRender.
  destruct (lifecycle_skips nodeOptions phase); simpl.
  - exists w. rewrite app_nil_r. auto.
  - destruct (_ || _); simpl; eexists; (split; [reflexivity|]);
      rewrite (ignores_logs_log_if FRONTLOAD_QUEUES) by apply queues_ignore;
      rewrite (ignores_logs_log_if (λ w, calls_of (trace w))) by apply calls_ignore;
      simpl; rewrite ?calls_of_app, ?app_nil_r; auto.
Qed.

(** What a hook does on a connected component below a client provider. *)
Lemma run_hook_on_client this h node w :
  isServer this = false →
  ∃ w',
    run_hook_on this h node w = Ok tt w'
    ∧ FRONTLOAD_QUEUES w' = FRONTLOAD_QUEUES w
    ∧ calls_of (trace w')
      = calls_of (trace w)
        ++ match h with
           | componentWillMount => []
           | componentDidMount =>
               if negb (lifecycle_skips (node_options node) MOUNT)
                  && (effectiveNoServerRender this (node_options node)
                      || firstClientRenderDone this)
               then [call_of MOUNT node] else []
           | componentDidUpdate =>
               if negb (lifecycle_skips (node_options node) UPDATE)
                  && (effectiveNoServerRender this (node_options node)
                      || firstClientRenderDone this)
               then [call_of UPDATE node] else []
           end.
Proof.
  intros Hclient. unfold run_hook_on, connected_hooks. rewrite Hclient.
  destruct h; simpl.
  - exists w. rewrite app_nil_r. auto.
  - unfold connected_pushFrontload. apply client_push_calls. exact Hclient.
  - unfold connected_pushFrontload. apply client_push_calls. exact Hclient.
Qed.

Lemma run_hook_on_all_client this h nodes w :
  isServer this = false →
  ∃ w',
    run_hook_on_all this h nodes w = Ok tt w'
    ∧ FRONTLOAD_QUEUES w' = FRONTLOAD_QUEUES w
    ∧ calls_of (trace w')
      = calls_of (trace w)
        ++ match h with
           | componentWillMount => []
           | componentDidMount =>
               map (call_of MOUNT)
                 (List.filter (λ node, negb (lifecycle_skips (node_options node) MOUNT)
                                       && (effectiveNoServerRender this (node_options node)
                                           || firstClientRenderDone this)) nodes)
           | componentDidUpdate =>
               map (call_of UPDATE)
                 (List.filter (λ node, negb (lifecycle_skips (node_options node) UPDATE)
                                       && (effectiveNoServerRender this (node_options node)
                                           || firstClientRenderDone this)) nodes)
           end.
Proof.
  intros Hclient. revert w. induction nodes as [|node nodes IH]; intros w; simpl.
  - exists w. destruct h; rewrite app_nil_r; auto.
  - unfold js_bind.
    destruct (run_hook_on_client this h node w Hclient) as (w1 & Hrun1 & Hq1 & Hc1).
    rewrite Hrun1.
    destruct (IH w1) as (w' & Hrun & Hq & Hc).
    exists w'. split; [exact Hrun|]. split; [congruence|].
    rewrite Hc, Hc1, <- app_assoc. f_equal.
    destruct h; simpl; [reflexivity | |];
      destruct (negb _ && _); reflexivity.
Qed.

(** X11: when a tree is first mounted on the client, the frontload
    functions called are those of the components that have
    [noServerRender] set, on themselves or on the provider, and do not have
    [onMount: false], in order; nothing is queued, and the provider has
    its latch set afterwards. *)
Theorem X11_first_client_mount
    (p : FrontloadProps) (nodes : list ConnectedNode) (w : World) :
  provider_isServer p = false →
  ∃ this w',
    client_mount p nodes w = Ok this w'
    ∧ firstClientRenderDone this = true
    ∧ isServer this = false
    ∧ queueIndex this = length (FRONTLOAD_QUEUES w)
    ∧ FRONTLOAD_QUEUES w' = FRONTLOAD_QUEUES w ++ [Some []]
    ∧ calls_of (trace w')
      = calls_of (trace w)
        ++ map (call_of MOUNT) (List.filter (fetched_on_first_mount p) nodes).
Proof.
  intros Hclient. unfold client_mount.
  set (this := fst (Frontload_constructor p w)).
  set (w0 := snd (Frontload_constructor p w)).
  assert (Hthis : isServer this = false) by exact Hclient.
  destruct (run_hook_on_all_client this componentWillMount nodes w0 Hthis)
    as (w1 & Hrun1 & Hq1 & Hc1).
  destruct (run_hook_on_all_client this componentDidMount nodes w1 Hthis)
    as (w2 & Hrun2 & Hq2 & Hc2).
  unfold js_bind at 1. cbn [Frontload_constructor JsArray.push]. fold this w0.
  change (set_queues (FRONTLOAD_QUEUES w ++ [Some []]) w) with w0.
  change (Build_Frontload p (match props_isServer p with
                             | Some b => b
                             | None => IS_SERVER
                             end) (S (length (FRONTLOAD_QUEUES w)) - 1) false) with this.
  unfold js_bind at 1. rewrite Hrun1. unfold js_bind at 1. rewrite Hrun2.
  eexists _, _. split; [reflexivity|].
  split; [reflexivity|]. split; [exact Hclient|].
  split; [simpl; lia|].
  rewrite (ignores_logs_log_if FRONTLOAD_QUEUES) by apply queues_ignore.
  rewrite (ignores_logs_log_if (λ w, calls_of (trace w))) by apply calls_ignore.
  split; [rewrite Hq2, Hq1; reflexivity|].
  rewrite Hc2, Hc1, app_nil_r. subst w0. simpl. f_equal. f_equal.
  apply filter_ext. intros node. unfold fetched_on_first_mount, effectiveNoServerRender.
  subst this. simpl. rewrite orb_false_r.
  unfold lifecycle_skips, onMount_or_default.
  destruct (onMount (node_options node)) as [[]|]; simpl;
    rewrite ?andb_true_r, ?andb_false_r; try reflexivity;
    destruct (truthy (props_noServerRender p) || truthy (noServerRender (node_options node)));
    reflexivity.
Qed.

(** X12: once the latch is set, an update on the client calls the
    frontload function of every component that has [onUpdate] set, in
    order, with [isUpdate] true, and queues nothing. *)
Theorem X12_client_update_after_first_mount
    (this : Frontload) (nodes : list ConnectedNode) (w : World) :
  isServer this = false →
  firstClientRenderDone this = true →
  ∃ w',
    client_update this nodes w = Ok tt w'
    ∧ FRONTLOAD_QUEUES w' = FRONTLOAD_QUEUES w
    ∧ calls_of (trace w')
      = calls_of (trace w) ++ map (call_of UPDATE) (List.filter fetched_on_update nodes).
Proof.
  intros Hclient Hlatch. unfold client_update.
  destruct (run_hook_on_all_client this componentDidUpdate nodes w Hclient)
    as (w' & Hrun & Hq & Hc).
  exists w'. split; [exact Hrun|]. split; [exact Hq|].
  rewrite Hc. f_equal. f_equal. apply filter_ext. intros node.
  rewrite Hlatch, orb_true_r, andb_true_r.
  unfold lifecycle_skips, onUpdate_or_default, fetched_on_update.
  destruct (onUpdate (node_options node)) as [[]|]; reflexivity.
Qed.

End ClientResults.

Section FlushAllWaits.

Context `{Host}.

Import JsArray JsArrayFacts.




End FlushAllWaits.

Section ResolvedRuns.

Context `{Host}.

Import JsArray JsArrayFacts.






End ResolvedRuns.

Section StaleSlots.

Context `{Host}.

Import JsArray JsArrayFacts.

(** X8: on the server, a push by a provider whose slot is no longer in the
    table throws exactly when the request would have been queued, and then
    changes nothing; a push that is skipped returns as usual. *)
Theorem X8_push_without_slot
    (this : Frontload) (frontload : FrontloadFn) (nodeOptions : NodeOptions)
    (phase : LifecyclePhase) (childProps : Props) (logMessage : option string)
    (w : World) :
  isServer this = true →
  get (FRONTLOAD_QUEUES w) (queueIndex this) = None →
  (effectiveNoServerRender this nodeOptions || lifecycle_skips nodeOptions phase = true
   ∧ pushFrontload this frontload nodeOptions phase childProps logMessage w = Ok tt w)
  ∨ (effectiveNoServerRender this nodeOptions || lifecycle_skips nodeOptions phase = false
     ∧ ∃ e, pushFrontload this frontload nodeOptions phase childProps logMessage w
            = Throw e w).
Proof.
  intros Hserver Hslot.
  pose proof (push_gate this nodeOptions phase) as Hgate. rewrite Hserver in Hgate.
  simpl in Hgate. unfold pushFrontload. rewrite Hserver, Hslot. simpl. rewrite Hgate.
  clear Hgate.
  destruct (effectiveNoServerRender this nodeOptions || lifecycle_skips nodeOptions phase).
  - left. split; reflexivity.
  - right. split; [reflexivity|]. eexists. reflexivity.
Qed.

(** A slot that belongs to no provider of the render is left alone. *)
Lemma run_events_keeps_slot events providers w i :
  i < length (FRONTLOAD_QUEUES w) →
  Forall (λ this, queueIndex this ≠ i) providers →
  get (FRONTLOAD_QUEUES (world_of (run_events events providers w))) i
  = get (FRONTLOAD_QUEUES w) i.
Proof.
  revert providers w.
  induction events as [|[p|k frontload nodeOptions component componentProps] rest IH];
    intros providers w Hi Hproviders; simpl.
  - reflexivity.
  - unfold js_bind. simpl. rewrite IH.
    + simpl. apply get_app_old. exact Hi.
    + simpl. rewrite length_app. lia.
    + apply Forall_app. split; [exact Hproviders|]. constructor; [|constructor].
      simpl. lia.
  - destruct (providers !! k) as [context|] eqn:Hctx; [|reflexivity].
    assert (Hne : queueIndex context ≠ i).
    { rewrite Forall_forall in Hproviders. apply Hproviders.
      eapply list_elem_of_lookup_2; eauto. }
    unfold js_bind, connected_hooks.
    destruct (isServer context) eqn:Hserver; simpl; [|apply IH; assumption].
    unfold js_bind, connected_pushFrontload.
    set (logMessage := if negb production then None else _).
    assert (Hpush : get (FRONTLOAD_QUEUES
                           (world_of (pushFrontload context frontload nodeOptions MOUNT
                                        componentProps logMessage w))) i
                    = get (FRONTLOAD_QUEUES w) i).
    { unfold pushFrontload. rewrite Hserver.
      destruct (_ || _ || _); [reflexivity|].
      destruct (get (FRONTLOAD_QUEUES w) (queueIndex context)); [|reflexivity].
      simpl. rewrite (ignores_logs_log_if FRONTLOAD_QUEUES) by apply queues_ignore.
      simpl. apply get_set_ne. exact Hne. }
    pose proof (pushFrontload_length context frontload nodeOptions MOUNT componentProps
                  logMessage w) as Hlen.
    destruct (pushFrontload context frontload nodeOptions MOUNT componentProps logMessage w)
      as [[] w1|e w1]; simpl in *; [|exact Hpush].
    rewrite IH; [exact Hpush | lia | exact Hproviders].
Qed.

Lemma call_render_keeps_slot render dryRun w i :
  i < length (FRONTLOAD_QUEUES w) →
  get (FRONTLOAD_QUEUES (world_of (call_render render dryRun w))) i
  = get (FRONTLOAD_QUEUES w) i.
Proof.
  intros Hi. unfold call_render, js_bind, js_modify, js_get. simpl.
  pose proof (run_events_keeps_slot (r_events (render dryRun (store w))) []
                (emit (EvRender dryRun) w) i Hi (List.Forall_nil _)) as Hkeep.
  destruct (run_events _ _ _); simpl in *; exact Hkeep.
Qed.

(** When the dry run leaves an empty queue in the first slot, the
    coordinator counts no request: it goes to the final render at once. *)
Lemma first_slot_empty_after_dry_run fuel render options w :
  (∀ logging out w1,
     call_render render true (log_if logging (LogRunningPass 1) w) = Ok out w1 →
     get (FRONTLOAD_QUEUES w1) 0 = Some []) →
  let r := frontloadServerRender (S fuel) render options w in
  calls_of (trace (snd r)) = calls_of (trace w)
  ∧ ((∃ out, fst r = Resolved out
             ∧ renders_of (trace (snd r)) = renders_of (trace w) ++ [true; false])
     ∨ (∃ e, fst r = Threw e)).
Proof.
  intros Hempty r. subst r. unfold frontloadServerRender.
  set (options3 := if negb production && _ then _ else _).
  rewrite worker_unfold. cbv zeta.
  set (logging := negb production && truthy (withLogging options3)).
  set (max := maxNestedFrontloadComponents options3).
  pose proof (dry_run_pass_renders render logging 1%Z w) as Hr1.
  pose proof (dry_run_pass_frame (λ w, calls_of (trace w)) render logging 1%Z
                (proj1 calls_ignore) (proj2 calls_ignore)
                (proj1 calls_ignore_render) (proj2 calls_ignore_render) w) as Hc1.
  assert (Htotal : ∀ total w1,
             dry_run_pass render logging 1%Z w = Ok total w1 → total = 0%Z).
  { unfold dry_run_pass. rewrite js_bind_modify.
    specialize (Hempty logging).
    unfold js_bind at 1.
    destruct (call_render render true (log_if logging (LogRunningPass 1) w))
      as [out w1|e w1]; [|discriminate].
    specialize (Hempty out w1 eq_refl).
    unfold js_bind at 1, first_queue_length. rewrite Hempty.
    unfold js_bind, js_modify, js_ret. intros total w2 Heq. inversion Heq. reflexivity. }
  destruct (dry_run_pass render logging 1%Z w) as [total w1|e w1].
  2: { simpl in *. split; [exact Hc1 | right; eauto]. }
  rewrite (Htotal total w1 eq_refl). simpl in Hr1, Hc1. simpl.
  pose proof (final_render_renders render logging 1%Z max w1) as Hr2.
  pose proof (final_render_frame (λ w, calls_of (trace w)) render logging 1%Z max
                (proj1 calls_ignore) (proj2 calls_ignore)
                (proj1 calls_ignore_render) (proj2 calls_ignore_render) w1) as Hc2.
  destruct (final_render render logging 1%Z max w1) as [out w2|e w2]; simpl in *.
  - split; [congruence|]. left. exists out. split; [reflexivity|].
    rewrite Hr2, Hr1, <- app_assoc. reflexivity.
  - split; [congruence|]. right. eauto.
Qed.

(** X15: when the coordinator starts with a table whose first slot is an
    empty queue left by an earlier provider, the providers of its renders
    get later slots; the coordinator counts no request, flushes nothing and
    calls no frontload function: it resolves after the dry run and the
    final render, unless a render throws. *)
Theorem X15_stale_first_slot_loads_nothing
    (fuel : nat) (render : Renderer) (options : option ServerRenderOptions) (w : World) :
  get (FRONTLOAD_QUEUES w) 0 = Some [] →
  let r := frontloadServerRender (S fuel) render options w in
  calls_of (trace (snd r)) = calls_of (trace w)
  ∧ ((∃ out, fst r = Resolved out
             ∧ renders_of (trace (snd r)) = renders_of (trace w) ++ [true; false])
     ∨ (∃ e, fst r = Threw e)).
Proof.
  intros Hslot. apply first_slot_empty_after_dry_run.
  intros logging out w1 Hrender.
  set (w0 := log_if logging (LogRunningPass 1) w) in *.
  assert (Hslot0 : get (FRONTLOAD_QUEUES w0) 0 = Some []).
  { subst w0. rewrite (ignores_logs_log_if FRONTLOAD_QUEUES) by apply queues_ignore.
    exact Hslot. }
  pose proof (call_render_keeps_slot render true w0 0 (get_Some_lt _ _ _ Hslot0)) as Hkeep.
  rewrite Hrender in Hkeep. simpl in Hkeep. rewrite Hkeep. exact Hslot0.
Qed.



End StaleSlots.

(** * The further results on concrete applications *)

Section MoreDemoFacts.

Import Demo.
Import MoreDemo.
Import JsArray.

Lemma X2_bare_renderer_witness :
  ∃ e w',
    frontloadServerRender 1 bare None empty_world = (Threw e, w')
    ∧ renders_of (trace w') = [true]
    ∧ calls_of (trace w') = [].
Proof.
  exact (X2_no_provider_throws 0 bare None empty_world eq_refl eq_refl).
Defined.


Lemma X4_no_budget_witness :
  fst (frontloadServerRender 1 nested (Some no_budget) empty_world) ≠ OutOfFuel
  ∧ ∃ final,
      renders_of (trace (snd (frontloadServerRender 1 nested (Some no_budget) empty_world)))
      = true :: final
      ∧ (final = [] ∨ final = [false]).
Proof.
  exact (X4_default_budget_is_one_pass 0 nested (Some no_budget) empty_world eq_refl).
Defined.

Lemma X6_quiet_run_witness :
  logs_of (trace (snd (frontloadServerRender 2 nested (Some quiet) empty_world))) = [].
Proof.
  exact (X6_coordinator_is_silent_without_logging 2 nested quiet empty_world
           (or_intror eq_refl)).
Defined.

Lemma X7_one_of_two_slots_witness :
  ∃ p w',
    flushQueues (Some 0) no_flush_options two_slots = Ok p w'
    ∧ (∀ j, j ≠ 0 → get (FRONTLOAD_QUEUES w') j = get (FRONTLOAD_QUEUES two_slots) j)
    ∧ length (FRONTLOAD_QUEUES w') = 2
    ∧ store w' = []
    ∧ clock w' = 0
    ∧ renders_of (trace w') = [].
Proof.
  exact (proj2 (X7_flush_of_a_slot_is_local 0 no_flush_options two_slots)
           [request_A; request_B] eq_refl).
Defined.

Lemma X8_orphan_provider_witness :
  (effectiveNoServerRender server_provider default_options
   || lifecycle_skips default_options MOUNT = true
   ∧ pushFrontload server_provider (fetch_ok 10) default_options MOUNT 1 None empty_world
     = Ok tt empty_world)
  ∨ (effectiveNoServerRender server_provider default_options
     || lifecycle_skips default_options MOUNT = false
     ∧ ∃ e, pushFrontload server_provider (fetch_ok 10) default_options MOUNT 1 None
              empty_world
            = Throw e empty_world).
Proof.
  exact (X8_push_without_slot server_provider (fetch_ok 10) default_options MOUNT 1 None
           empty_world eq_refl eq_refl).
Defined.

Lemma X9_two_nodes_witness :
  ∃ out w1 promises w2,
    call_render two_nodes true empty_world = Ok out w1
    ∧ FRONTLOAD_QUEUES w1
      = [Some [entry_of (fetch_fail 7) (node_options node_updating) MOUNT 3;
               entry_of (fetch_ok 10) default_options MOUNT 1]]
    ∧ flushQueues None no_flush_options w1 = Ok promises w2
    ∧ calls_of (trace w2) = [call_of MOUNT node_updating; call_of MOUNT node_default].
Proof.
  apply (X9_requests_run_in_reverse_order two_nodes true no_flush_options empty_world
           server_props [node_default; node_updating] eq_refl eq_refl eq_refl).
  repeat constructor.
Defined.

Lemma X10_outside_ops_witness :
  no_holes (FRONTLOAD_QUEUES (snd (run_ops outside_ops empty_world)))
  ∧ no_holes (FRONTLOAD_QUEUES (snd (frontloadServerRender 2 nested (passes 2) empty_world)))
  ∧ ∀ i, i < length (FRONTLOAD_QUEUES (snd (run_ops outside_ops empty_world))) →
         is_Some (get (FRONTLOAD_QUEUES (snd (run_ops outside_ops empty_world))) i).
Proof.
  apply (X10_table_never_gets_a_hole outside_ops 2 nested (passes 2) empty_world eq_refl).
  constructor.
Defined.

Lemma X11_four_nodes_witness :
  ∃ this w',
    client_mount client_props four_nodes empty_world = Ok this w'
    ∧ firstClientRenderDone this = true
    ∧ isServer this = false
    ∧ queueIndex this = 0
    ∧ FRONTLOAD_QUEUES w' = [Some []]
    ∧ calls_of (trace w') = [call_of MOUNT node_client_only].
Proof.
  exact (X11_first_client_mount client_props four_nodes empty_world eq_refl).
Defined.

Lemma X12_four_nodes_witness :
  ∃ w',
    client_update mounted_client_provider four_nodes one_slot = Ok tt w'
    ∧ FRONTLOAD_QUEUES w' = [Some []]
    ∧ calls_of (trace w')
      = [call_of UPDATE node_updating; call_of UPDATE node_never_on_mount].
Proof.
  exact (X12_client_update_after_first_mount mounted_client_provider four_nodes one_slot
           eq_refl eq_refl).
Defined.




Lemma X15_after_a_client_provider_witness :
  calls_of (trace (snd (frontloadServerRender 1 flat (passes 1) one_slot))) = []
  ∧ ((∃ out, fst (frontloadServerRender 1 flat (passes 1) one_slot) = Resolved out
             ∧ renders_of (trace (snd (frontloadServerRender 1 flat (passes 1) one_slot)))
               = [true; false])
     ∨ (∃ e, fst (frontloadServerRender 1 flat (passes 1) one_slot) = Threw e)).
Proof.
  exact (X15_stale_first_slot_loads_nothing 0 flat (passes 1) one_slot eq_refl).
Defined.


End MoreDemoFacts.
